(** * Advanced Data Analyzer: the adaptive decision layer

    A shallow embedding of [analyzer/profiling.py], [analyzer/cleaning.py]
    and [analyzer/analysis.py].

    Conventions of the embedding.
    - A parquet file read by [pd.read_parquet] is the [DataFrame] it holds;
      a function that writes a cleaned file and returns its path returns
      the cleaned [DataFrame] instead.
    - A floating-point number is the rational it denotes ([Q]); [NaN]
      and [None] cells are [None].  The percentages and the cardinality
      ratio of the profiler, and the quartiles and bounds of the
      interquartile rule, are computed as the code computes them, in
      IEEE double arithmetic ([fl]); the medians, the k-NN means and
      the descriptive statistics are over exact rationals.
    - A Python function that may raise returns a [result]. *)

From Stdlib Require Import String Ascii Bool Arith ZArith Lia.
From Stdlib Require Import QArith Qround Qabs Qpower.
From Stdlib Require Import Sorting.Sorted List.
Import ListNotations.
Close Scope Q_scope.
Open Scope string_scope.
Open Scope list_scope.
Open Scope nat_scope.

Set Implicit Arguments.

(* ================================================================== *)
(** ** Exceptions and the error monad *)

Inductive exn : Type :=
| KeyError (key : string)
| ValueError (msg : string)
| TypeError (msg : string).

Inductive result (A : Type) : Type :=
| Ok (a : A)
| Raise (e : exn).

Arguments Ok {A} a.
Arguments Raise {A} e.

Definition bind {A B : Type} (m : result A) (k : A -> result B) : result B :=
  match m with
  | Ok a => k a
  | Raise e => Raise e
  end.

Notation "x <- m ;; k" := (bind m (fun x => k))
  (at level 61, m at next level, right associativity).

Fixpoint mapM {A B : Type} (f : A -> result B) (l : list A) : result (list B) :=
  match l with
  | [] => Ok []
  | x :: t => y <- f x ;; ys <- mapM f t ;; Ok (y :: ys)
  end.

(** A [for] loop over [l] whose body updates the loop state [s]. *)
Fixpoint foldM {A S : Type} (f : S -> A -> result S) (l : list A) (s : S)
  : result S :=
  match l with
  | [] => Ok s
  | x :: t => s' <- f s x ;; foldM f t s'
  end.

(* ================================================================== *)
(** ** Numbers *)

Definition Qlt_bool (x y : Q) : bool := negb (Qle_bool y x).

Definition is_some {A : Type} (o : option A) : bool :=
  match o with Some _ => true | None => false end.

Definition isnull {A : Type} (o : option A) : bool := negb (is_some o).

(** The present (non-missing) values of a column, in row order. *)
Fixpoint dropna_cells {A : Type} (xs : list (option A)) : list A :=
  match xs with
  | [] => []
  | Some v :: t => v :: dropna_cells t
  | None :: t => dropna_cells t
  end.

Fixpoint Qinsert (x : Q) (l : list Q) : list Q :=
  match l with
  | [] => [x]
  | y :: t => if Qle_bool x y then x :: l else y :: Qinsert x t
  end.

Definition Qsort (l : list Q) : list Q := fold_right Qinsert [] l.

Definition Qsum (l : list Q) : Q := fold_right Qplus 0%Q l.

Definition Qof_nat (n : nat) : Q := inject_Z (Z.of_nat n).

(** [round(x, ndigits)]: round half to even at [ndigits] decimals. *)
Definition round_half_even (x : Q) : Z :=
  let f := Qfloor x in
  let d := (x - inject_Z f)%Q in
  match Qcompare d (1 # 2) with
  | Lt => f
  | Gt => (f + 1)%Z
  | Eq => if Z.even f then f else (f + 1)%Z
  end.

Definition round (x : Q) (ndigits : nat) : Q :=
  let scale := inject_Z (10 ^ Z.of_nat ndigits) in
  (inject_Z (round_half_even (x * scale)) / scale)%Q.

(** *** IEEE 754 binary64

    A finite double is the rational it denotes.  The result of a
    floating-point operation is the exact result rounded to the nearest
    double, ties to even ([fl]); comparisons are exact.  Overflow to
    infinity is outside the model. *)

Definition pow2 (e : Z) : Q := Qpower 2 e.

(** [floor (log2 |x|)] for [x <> 0] *)
Definition ilog2 (x : Q) : Z :=
  let e := (Z.log2 (Z.abs (Qnum x)) - Z.log2 (Zpos (Qden x)))%Z in
  if Qle_bool (pow2 e) (Qabs x) then e else (e - 1)%Z.

(** Rounding to the nearest double: 53 significant bits, exponent of the
    unit in the last place no less than -1074. *)
Definition fl (x : Q) : Q :=
  if Qeq_bool x 0 then 0%Q
  else
    let ulp := pow2 (Z.max (ilog2 x) (-1022) - 52) in
    Qred (inject_Z (round_half_even (x / ulp)) * ulp)%Q.

Definition fadd (x y : Q) : Q := fl (x + y)%Q.
Definition fsub (x y : Q) : Q := fl (x - y)%Q.
Definition fmul (x y : Q) : Q := fl (x * y)%Q.
Definition fdiv (x y : Q) : Q := fl (x / y)%Q.

(** [np.rint]: the nearest integer, ties to even *)
Definition rint (x : Q) : Q := inject_Z (round_half_even x).

(** [round(x, decimals)] on a [numpy.float64]: scale, [rint], unscale. *)
Definition np_round (x : Q) (decimals : nat) : Q :=
  let factor := inject_Z (10 ^ Z.of_nat decimals) in
  fdiv (rint (fmul x factor)) factor.

(** [Series.median()]: the median of the present values, [NaN] when there
    is none. *)
Definition median (xs : list (option Q)) : option Q :=
  let s := Qsort (dropna_cells xs) in
  let n := length s in
  match n with
  | O => None
  | _ =>
      if Nat.odd n then Some (nth (n / 2) s 0%Q)
      else Some ((nth (n / 2 - 1) s 0 + nth (n / 2) s 0) / 2)%Q
  end.

(** [Series.quantile(q)] with the default linear interpolation, as
    [numpy.percentile] computes it: the present values sorted, the
    virtual index [(n - 1) * q], and the interpolation between the two
    neighbouring order statistics [a] and [b] with weight [gamma],
    [a + (b - a) * gamma], taken from the upper end when
    [gamma >= 0.5]; [NaN] when there is no value. *)
Definition lerp (a b gamma : Q) : Q :=
  let diff_b_a := fsub b a in
  if Qle_bool (1 # 2) gamma
  then fsub b (fmul diff_b_a (fsub 1 gamma))
  else fadd a (fmul diff_b_a gamma).

Definition quantile (xs : list (option Q)) (q : Q) : option Q :=
  let s := Qsort (dropna_cells xs) in
  let n := length s in
  match n with
  | O => None
  | _ =>
      let virtual_index := fmul (Qof_nat (n - 1)) q in
      let previous := Z.to_nat (Qfloor virtual_index) in
      let next := Nat.min (previous + 1) (n - 1) in
      let gamma := fsub virtual_index (Qof_nat previous) in
      Some (lerp (nth previous s 0%Q) (nth next s 0%Q) gamma)
  end.

(** [Series.fillna(v)]; filling with [NaN] changes nothing. *)
Definition fillna {A : Type} (xs : list (option A)) (v : option A)
  : list (option A) :=
  match v with
  | None => xs
  | Some _ => map (fun c => match c with Some _ => c | None => v end) xs
  end.

(* ================================================================== *)
(** ** Strings *)

Definition lower_ascii (c : ascii) : ascii :=
  let n := nat_of_ascii c in
  if (65 <=? n) && (n <=? 90) then ascii_of_nat (n + 32) else c.

(** [str.lower()] on ASCII text. *)
Fixpoint lower (s : string) : string :=
  match s with
  | EmptyString => EmptyString
  | String c t => String (lower_ascii c) (lower t)
  end.

(** [needle in hay] for strings. *)
Fixpoint contains (needle hay : string) : bool :=
  String.prefix needle hay
  || match hay with
     | EmptyString => false
     | String _ t => contains needle t
     end.

Definition mem (x : string) (l : list string) : bool :=
  existsb (String.eqb x) l.

(* ================================================================== *)
(** ** Tables *)

(** A column with its dtype: number ([int64]/[float64]), datetime
    (timestamps as numbers) or object/category (text labels). *)
Inductive column : Type :=
| NumCol (xs : list (option Q))
| DateCol (xs : list (option Q))
| ObjCol (xs : list (option string)).

(** A data frame: its row count (the length of the default [RangeIndex])
    and its named columns in order.  Column names are unique, as in a
    parquet file. *)
Record DataFrame : Type := {
  nrows : nat;
  columns : list (string * column)
}.

Definition col_isnull (c : column) : list bool :=
  match c with
  | NumCol xs | DateCol xs => map isnull xs
  | ObjCol xs => map isnull xs
  end.


(** [df[col].isnull().sum()] *)
Definition missing_count (c : column) : nat :=
  length (filter (fun b => b) (col_isnull c)).


Fixpoint assoc {A : Type} (k : string) (l : list (string * A)) : option A :=
  match l with
  | [] => None
  | (k', v) :: t => if String.eqb k k' then Some v else assoc k t
  end.

(** [df[col]] *)
Definition getitem (df : DataFrame) (col : string) : result column :=
  match assoc col (columns df) with
  | Some c => Ok c
  | None => Raise (KeyError col)
  end.

Fixpoint assoc_set {A : Type} (k : string) (v : A) (l : list (string * A))
  : list (string * A) :=
  match l with
  | [] => [(k, v)]
  | (k', v') :: t =>
      if String.eqb k k' then (k, v) :: t else (k', v') :: assoc_set k v t
  end.

(** [df[col] = c] *)
Definition setitem (df : DataFrame) (col : string) (c : column) : DataFrame :=
  {| nrows := nrows df; columns := assoc_set col c (columns df) |}.

(** The cells of a column on which order statistics are defined. *)
Definition ordered_cells (c : column) : result (list (option Q)) :=
  match c with
  | NumCol xs | DateCol xs => Ok xs
  | ObjCol _ => Raise (TypeError "could not convert string to float")
  end.

Definition with_cells (c : column) (xs : list (option Q)) : column :=
  match c with
  | DateCol _ => DateCol xs
  | _ => NumCol xs
  end.

(** [df.select_dtypes(include=...).columns.tolist()] *)
Definition is_number (c : column) : bool :=
  match c with NumCol _ => true | _ => false end.
Definition is_object (c : column) : bool :=
  match c with ObjCol _ => true | _ => false end.
Definition is_datetime (c : column) : bool :=
  match c with DateCol _ => true | _ => false end.

Definition select_dtypes (df : DataFrame) (p : column -> bool) : list string :=
  map fst (filter (fun nc => p (snd nc)) (columns df)).

(* ================================================================== *)
(** ** Profiles and results *)

Record Profile : Type := {
  rows : nat;
  cols : nat;
  missing : list (string * Q);
  numeric_cols : list string;
  categorical_cols : list string;
  date_cols : list string;
  high_cardinality : list string;
  dimensionality : string
}.

Record CleaningResult : Type := {
  imputed_columns : list string;
  skipped_columns : list string;
  method_used : string
}.

Record OutlierResult : Type := {
  outlier_indices : list nat;
  outlier_method_used : string;
  outlier_count : nat
}.

(* ================================================================== *)
(** ** profiling.py *)

Definition Qdistinct (l : list Q) : list Q :=
  fold_left (fun acc x => if existsb (Qeq_bool x) acc then acc else acc ++ [x])
            l [].

Definition string_distinct (l : list string) : list string :=
  fold_left (fun acc x => if mem x acc then acc else acc ++ [x]) l [].

(** [Series.nunique()]: the number of distinct present values. *)
Definition nunique (c : column) : nat :=
  match c with
  | NumCol xs | DateCol xs => length (Qdistinct (dropna_cells xs))
  | ObjCol xs => length (string_distinct (dropna_cells xs))
  end.

(** The [missing] dictionary built by the first loop of [profile_data]. *)
Definition missing_of (df : DataFrame) : list (string * Q) :=
  fold_left
    (fun missing nc =>
       let missing_count := missing_count (snd nc) in
       if 0 <? missing_count
       then assoc_set (fst nc)
              (np_round (fmul (fdiv (Qof_nat missing_count)
                                    (Qof_nat (nrows df))) 100) 1)
              missing
       else missing)
    (columns df) [].

Definition date_cols_of (df : DataFrame) : list string :=
  let date_cols := select_dtypes df is_datetime in
  date_cols
  ++ filter (fun col =>
               (contains "date" (lower col) || contains "time" (lower col))
               && negb (mem col date_cols))
            (map fst (columns df)).

Definition high_cardinality_of (df : DataFrame) (categorical_cols : list string)
  : list string :=
  filter
    (fun col =>
       match assoc col (columns df) with
       | None => false
       | Some c =>
           let n_unique := nunique c in
           let unique_ratio :=
             if 0 <? nrows df then fdiv (Qof_nat n_unique) (Qof_nat (nrows df))
             else 0%Q in
           (50 <? n_unique)
           || (Qlt_bool (fl (8 # 10)) unique_ratio && (2 <? n_unique))
       end)
    categorical_cols.

Definition profile_data (df : DataFrame) : result Profile :=
  let numeric_cols := select_dtypes df is_number in
  let categorical_cols := select_dtypes df is_object in
  Ok {| rows := nrows df;
        cols := length (columns df);
        missing := missing_of df;
        numeric_cols := numeric_cols;
        categorical_cols := categorical_cols;
        date_cols := date_cols_of df;
        high_cardinality := high_cardinality_of df categorical_cols;
        dimensionality := if 10 <=? length numeric_cols then "high" else "low" |}.

(* ================================================================== *)
(** ** cleaning.py: imputation *)

(** [Series.mode()] returns the most frequent present values in sorted
    order; [mode_val[0]] is the least of them.  [mode_first] is that
    element, [None] when the column has no present value. *)
Section Mode.
Variable A : Type.
Variable eqb leb : A -> A -> bool.

Definition occurrences (v : A) (l : list A) : nat :=
  length (filter (eqb v) l).

Definition least (l : list A) : option A :=
  fold_right (fun x acc =>
                match acc with
                | None => Some x
                | Some y => if leb x y then Some x else Some y
                end) None l.

Definition mode_first (xs : list (option A)) : option A :=
  let vals := dropna_cells xs in
  let top := fold_right Nat.max 0 (map (fun v => occurrences v vals) vals) in
  least (filter (fun v => occurrences v vals =? top) vals).
End Mode.

(** [df[col].fillna(mode_val[0])] when the mode exists; [None] when
    [len(mode_val) = 0]. *)
Definition fill_mode (c : column) : option column :=
  match c with
  | NumCol xs =>
      match mode_first Qeq_bool Qle_bool xs with
      | Some v => Some (NumCol (fillna xs (Some v)))
      | None => None
      end
  | DateCol xs =>
      match mode_first Qeq_bool Qle_bool xs with
      | Some v => Some (DateCol (fillna xs (Some v)))
      | None => None
      end
  | ObjCol xs =>
      match mode_first String.eqb String.leb xs with
      | Some v => Some (ObjCol (fillna xs (Some v)))
      | None => None
      end
  end.

(** [col in profile['missing']] *)
Definition in_missing (col : string) (profile : Profile) : bool :=
  mem col (map fst (missing profile)).

(** The loop "Numeric: median" of [_simple_impute]. *)
Definition fill_median_step (profile : Profile) (df : DataFrame) (col : string)
  : result DataFrame :=
  if in_missing col profile then
    c <- getitem df col ;;
    xs <- ordered_cells c ;;
    Ok (setitem df col (with_cells c (fillna xs (median xs))))
  else Ok df.

(** The loop "Categorical: mode" of [_simple_impute] and [_knn_impute]. *)
Definition fill_mode_step (profile : Profile) (df : DataFrame) (col : string)
  : result DataFrame :=
  if in_missing col profile then
    c <- getitem df col ;;
    match fill_mode c with
    | Some c' => Ok (setitem df col c')
    | None => Ok df
    end
  else Ok df.

Definition _simple_impute (df : DataFrame) (profile : Profile)
  : result DataFrame :=
  df1 <- foldM (fill_median_step profile) (numeric_cols profile) df ;;
  foldM (fill_mode_step profile) (categorical_cols profile) df1.

(** [sklearn.impute.KNNImputer(n_neighbors=5).fit_transform], on a matrix
    given by its columns.  Distances are [nan_euclidean]: over the
    coordinates present in both rows, scaled by the share of such
    coordinates; they are compared through their squares.  A missing cell
    receives the mean of its column over the nearest donors (rows where
    the column is present), or the column mean when no donor is at a
    defined distance.  A column with no present value at all is dropped
    from the output. *)
Module KNNImputer.

Definition n_neighbors : nat := 5.

Definition matrix : Type := list (list (option Q)).

Definition row (X : matrix) (r : nat) : list (option Q) :=
  map (fun c => nth r c None) X.

Fixpoint both_present (x y : list (option Q)) : list (Q * Q) :=
  match x, y with
  | Some a :: x', Some b :: y' => (a, b) :: both_present x' y'
  | _ :: x', _ :: y' => both_present x' y'
  | _, _ => []
  end.

Definition sqdist (x y : list (option Q)) : option Q :=
  match both_present x y with
  | [] => None
  | ps =>
      Some (Qof_nat (length x) / Qof_nat (length ps)
            * Qsum (map (fun p => (fst p - snd p) * (fst p - snd p)) ps))%Q
  end.

(** [NaN] distances sort last. *)
Definition dist_le (d1 d2 : option Q) : bool :=
  match d1, d2 with
  | Some a, Some b => Qle_bool a b
  | Some _, None => true
  | None, Some _ => false
  | None, None => true
  end.

Fixpoint insert_by_dist (x : nat * option Q) (l : list (nat * option Q))
  : list (nat * option Q) :=
  match l with
  | [] => [x]
  | y :: t =>
      if dist_le (snd x) (snd y) then x :: l else y :: insert_by_dist x t
  end.

Definition sort_by_dist (l : list (nat * option Q)) : list (nat * option Q) :=
  fold_right insert_by_dist [] l.

Definition mean (l : list Q) : Q := (Qsum l / Qof_nat (length l))%Q.

Definition impute_value (X : matrix) (n : nat) (col : list (option Q))
           (r : nat) : Q :=
  let donors := filter (fun d => is_some (nth d col None)) (seq 0 n) in
  let dists := map (fun d => (d, sqdist (row X r) (row X d))) donors in
  if forallb (fun p => isnull (snd p)) dists then mean (dropna_cells col)
  else
    let nearest :=
      firstn (Nat.min n_neighbors (length donors)) (sort_by_dist dists) in
    let weighted := filter (fun p => is_some (snd p)) nearest in
    mean (dropna_cells (map (fun p => nth (fst p) col None) weighted)).

Definition impute_column (X : matrix) (n : nat) (col : list (option Q))
  : list (option Q) :=
  map (fun r => match nth r col None with
                | Some v => Some v
                | None => Some (impute_value X n col r)
                end)
      (seq 0 n).

Definition valid (col : list (option Q)) : bool := existsb is_some col.

Definition fit_transform (n : nat) (X : matrix) : matrix :=
  map (impute_column X n) (filter valid X).

End KNNImputer.

(** The conversion of a selected column to a float array. *)
Definition to_float (c : column) : result (list (option Q)) :=
  match c with
  | NumCol xs => Ok xs
  | _ => Raise (ValueError "could not convert column to float")
  end.

(** [df[cols] = values] for a 2-D array given by its columns. *)
Definition setitem_list (df : DataFrame) (cols : list string)
           (values : list (list (option Q))) : result DataFrame :=
  if length values =? length cols
  then Ok (fold_left (fun d kv => setitem d (fst kv) (NumCol (snd kv)))
                     (combine cols values) df)
  else Raise (ValueError "Columns must be same length as key").

Definition _knn_impute (df : DataFrame) (profile : Profile)
  : result DataFrame :=
  let numeric_cols := numeric_cols profile in
  df1 <- match numeric_cols with
         | [] => Ok df
         | _ =>
             sub <- mapM (getitem df) numeric_cols ;;
             X <- mapM to_float sub ;;
             setitem_list df numeric_cols
                          (KNNImputer.fit_transform (nrows df) X)
         end ;;
  foldM (fill_mode_step profile) (categorical_cols profile) df1.

Definition _random_forest_impute (df : DataFrame) (profile : Profile)
  : result DataFrame :=
  _knn_impute df profile.

Definition Qmax_list (l : list Q) : Q :=
  match l with
  | [] => 0%Q
  | x :: t => fold_left (fun m y => if Qlt_bool m y then y else m) t x
  end.

(** The method chosen for ['auto'] from the largest missing percentage
    among the columns to impute. *)
Definition auto_method (max_missing_pct : Q) : string :=
  if Qlt_bool max_missing_pct 5 then "simple"
  else if Qlt_bool max_missing_pct 15 then "knn"
  else "random_forest".

Definition with_missing (profile : Profile) (m : list (string * Q)) : Profile :=
  {| rows := rows profile;
     cols := cols profile;
     missing := m;
     numeric_cols := numeric_cols profile;
     categorical_cols := categorical_cols profile;
     date_cols := date_cols profile;
     high_cardinality := high_cardinality profile;
     dimensionality := dimensionality profile |}.

Definition cols_to_impute (profile : Profile) (impute_threshold : Q)
  : list (string * Q) :=
  filter (fun cp => Qle_bool (snd cp) impute_threshold) (missing profile).

Definition skipped (profile : Profile) (impute_threshold : Q)
  : list (string * Q) :=
  filter (fun cp => Qlt_bool impute_threshold (snd cp)) (missing profile).

Definition impute_missing (df : DataFrame) (profile : Profile)
           (method : string) (impute_threshold : Q)
  : result (DataFrame * CleaningResult) :=
  match missing profile with
  | [] =>
      Ok (df, {| imputed_columns := [];
                 skipped_columns := [];
                 method_used := "none" |})
  | _ =>
      let cols_to_impute := cols_to_impute profile impute_threshold in
      let skipped_columns := skipped profile impute_threshold in
      match cols_to_impute with
      | [] =>
          Ok (df, {| imputed_columns := [];
                     skipped_columns := map fst skipped_columns;
                     method_used := "none" |})
      | _ =>
          let method :=
            if String.eqb method "auto"
            then auto_method (Qmax_list (map snd cols_to_impute))
            else method in
          let impute_profile := with_missing profile cols_to_impute in
          df' <- (if String.eqb method "simple"
                  then _simple_impute df impute_profile
                  else if String.eqb method "knn"
                  then _knn_impute df impute_profile
                  else if String.eqb method "random_forest"
                  then _random_forest_impute df impute_profile
                  else Raise (ValueError
                                ("Unknown imputation method: " ++ method))) ;;
          Ok (df', {| imputed_columns := map fst cols_to_impute;
                      skipped_columns := map fst skipped_columns;
                      method_used := method |})
      end
  end.

(* ================================================================== *)
(** ** External numerical routines

    The routines of scikit-learn and pandas whose results are not
    rational functions of the data (they take square roots or draw random
    trees) are an interface: the pipeline only passes their results on. *)
Class External : Type := {
  (** an IEEE double as these routines return it *)
  float : Type;
  (** [LocalOutlierFactor(n_neighbors=5, contamination=0.1).fit_predict]:
      one label per row, [-1] for an outlier *)
  lof_fit_predict : list (list Q) -> list Z;
  (** [IsolationForest(contamination=0.1, random_state=42).fit_predict] *)
  iso_fit_predict : list (list Q) -> list Z;
  (** [round(Series.describe()['std'], 2)] *)
  std_round2 : list (option Q) -> float;
  (** the Pearson correlation of two columns, [NaN]s pairwise excluded *)
  pearson : list (option Q) -> list (option Q) -> float;
  (** [str(k)] for a number [k] *)
  str_of_number : Q -> string
}.

(* ================================================================== *)
(** ** cleaning.py: outlier detection *)

Fixpoint insert_nat (x : nat) (l : list nat) : list nat :=
  match l with
  | [] => [x]
  | y :: t => if x <=? y then x :: l else y :: insert_nat x t
  end.

(** [sorted(l)] on row indices *)
Definition sorted (l : list nat) : list nat := fold_right insert_nat [] l.

(** [s.update(xs)] on a set of row indices, kept as a duplicate-free list *)
Definition set_update (s : list nat) (xs : list nat) : list nat :=
  fold_left (fun acc x => if existsb (Nat.eqb x) acc then acc else acc ++ [x])
            xs s.

(** The row positions of the cells of [xs] that satisfy [p]; a missing
    cell satisfies no comparison. *)
Definition positions_where (p : Q -> bool) (xs : list (option Q)) : list nat :=
  map fst
      (filter (fun ix => match snd ix with Some v => p v | None => false end)
              (combine (seq 0 (length xs)) xs)).

Definition lower_bound (Q1 Q3 : Q) : Q :=
  let IQR := fsub Q3 Q1 in fsub Q1 (fmul (15 # 10) IQR).
Definition upper_bound (Q1 Q3 : Q) : Q :=
  let IQR := fsub Q3 Q1 in fadd Q3 (fmul (15 # 10) IQR).

(** The rows one column flags, in one iteration of [_iqr_outliers]. *)
Definition iqr_column_outliers (xs : list (option Q)) : list nat :=
  match quantile xs (1 # 4), quantile xs (3 # 4) with
  | Some Q1, Some Q3 =>
      positions_where
        (fun v => Qlt_bool v (lower_bound Q1 Q3)
                  || Qlt_bool (upper_bound Q1 Q3) v)
        xs
  | _, _ => []
  end.

Definition _iqr_outliers (df : DataFrame) (numeric_cols : list string)
  : result (list nat) :=
  outlier_indices <-
    foldM (fun outlier_indices col =>
             c <- getitem df col ;;
             xs <- ordered_cells c ;;
             Ok (set_update outlier_indices (iqr_column_outliers xs)))
          numeric_cols [] ;;
  Ok (sorted outlier_indices).

(** [df[numeric_cols].dropna()]: the selected columns and the index of the
    rows in which all of them are present. *)
Definition dropna_rows (df : DataFrame) (numeric_cols : list string)
  : result (list column * list nat) :=
  sub <- mapM (getitem df) numeric_cols ;;
  Ok (sub,
      filter (fun r => forallb (fun c => negb (nth r (col_isnull c) true)) sub)
             (seq 0 (nrows df))).

Definition values_at (X : list (list (option Q))) (index : list nat)
  : list (list Q) :=
  map (fun r => map (fun xs => match nth r xs None with
                               | Some v => v
                               | None => 0%Q
                               end) X)
      index.

(** [X.index[outlier_labels == -1].tolist()] *)
Definition flagged (index : list nat) (outlier_labels : list Z) : list nat :=
  map fst (filter (fun il => Z.eqb (snd il) (-1)) (combine index outlier_labels)).

Definition score_outliers (fit_predict : list (list Q) -> list Z)
           (df : DataFrame) (numeric_cols : list string) : result (list nat) :=
  X <- dropna_rows df numeric_cols ;;
  let (sub, index) := X in
  if length index <? 10 then Ok []
  else
    values <- mapM to_float sub ;;
    Ok (sorted (flagged index (fit_predict (values_at values index)))).

Section Outliers.
Context `{External}.

Definition _knn_outliers := score_outliers lof_fit_predict.

Definition _isolation_forest_outliers := score_outliers iso_fit_predict.

Definition detect_outliers (df : DataFrame) (profile : Profile)
           (method : string) : result OutlierResult :=
  let numeric_cols := numeric_cols profile in
  match numeric_cols with
  | [] =>
      Ok {| outlier_indices := [];
            outlier_method_used := "none";
            outlier_count := 0 |}
  | _ =>
      let method :=
        if String.eqb method "auto" then
          let n_numeric := length numeric_cols in
          if n_numeric <? 5 then "iqr"
          else if n_numeric <? 10 then "knn"
          else "isolation_forest"
        else method in
      outlier_indices <-
        (if String.eqb method "iqr" then _iqr_outliers df numeric_cols
         else if String.eqb method "knn" then _knn_outliers df numeric_cols
         else if String.eqb method "isolation_forest"
         then _isolation_forest_outliers df numeric_cols
         else Raise (ValueError
                       ("Unknown outlier detection method: " ++ method))) ;;
      Ok {| outlier_indices := outlier_indices;
            outlier_method_used := method;
            outlier_count := length outlier_indices |}
  end.
End Outliers.

(* ================================================================== *)
(** ** analysis.py *)

Definition option_map2 {A B : Type} (f : A -> B) (o : option A) : option B :=
  match o with Some a => Some (f a) | None => None end.

Definition Qmin_list (l : list Q) : option Q :=
  match l with
  | [] => None
  | x :: t => Some (fold_left (fun m y => if Qlt_bool y m then y else m) t x)
  end.

Definition Qmean (l : list Q) : option Q :=
  match l with
  | [] => None
  | _ => Some (Qsum l / Qof_nat (length l))%Q
  end.

Section Analysis.
Context `{External}.

Record Stats : Type := {
  stat_mean : option Q;
  stat_std : float;
  stat_min : option Q;
  stat_max : option Q;
  stat_median : option Q
}.

Record AnalysisResult : Type := {
  statistics : list (string * Stats);
  correlations : option (list (string * list (string * float)));
  categorical_summary : list (string * list (string * nat))
}.

(** One iteration of the loop over [profile['numeric_cols']]:
    [describe()] has the entries read here for a numeric column only. *)
Definition describe_step (df : DataFrame)
           (statistics : list (string * Stats)) (col : string)
  : result (list (string * Stats)) :=
  c <- getitem df col ;;
  match c with
  | NumCol xs =>
      let vals := dropna_cells xs in
      let r2 := option_map2 (fun v => round v 2) in
      Ok (assoc_set col
            {| stat_mean := r2 (Qmean vals);
               stat_std := std_round2 xs;
               stat_min := r2 (Qmin_list vals);
               stat_max := r2 (match vals with
                               | [] => None
                               | _ => Some (Qmax_list vals)
                               end);
               stat_median := r2 (median xs) |}
            statistics)
  | DateCol _ => Raise (TypeError "unsupported operand for round")
  | ObjCol _ => Raise (KeyError "mean")
  end.

(** [df[numeric_cols].corr().to_dict()] *)
Definition corr_to_dict (df : DataFrame) (numeric_cols : list string)
  : result (list (string * list (string * float))) :=
  sub <- mapM (getitem df) numeric_cols ;;
  X <- mapM to_float sub ;;
  let named := combine numeric_cols X in
  Ok (map (fun a => (fst a, map (fun b => (fst b, pearson (snd a) (snd b)))
                                named))
          named).

(** [value_counts().head(10)]: the distinct values by decreasing count,
    equal counts in order of first occurrence. *)
Fixpoint insert_by_count (x : string * nat) (l : list (string * nat))
  : list (string * nat) :=
  match l with
  | [] => [x]
  | y :: t =>
      if snd y <=? snd x then x :: l else y :: insert_by_count x t
  end.

Definition value_counts (labels : list string) : list (string * nat) :=
  fold_right insert_by_count []
    (map (fun v => (v, occurrences String.eqb v labels))
         (string_distinct labels)).

Definition labels_of (c : column) : list string :=
  match c with
  | NumCol xs | DateCol xs => map str_of_number (dropna_cells xs)
  | ObjCol xs => dropna_cells xs
  end.

Definition summary_step (df : DataFrame) (profile : Profile)
           (summary : list (string * list (string * nat))) (col : string)
  : result (list (string * list (string * nat))) :=
  if negb (mem col (high_cardinality profile)) then
    c <- getitem df col ;;
    Ok (assoc_set col (firstn 10 (value_counts (labels_of c))) summary)
  else Ok summary.

Definition analyze_data (df : DataFrame) (profile : Profile)
  : result AnalysisResult :=
  statistics <- foldM (describe_step df) (numeric_cols profile) [] ;;
  correlations <-
    (if 2 <=? length (numeric_cols profile)
     then corr <- corr_to_dict df (numeric_cols profile) ;; Ok (Some corr)
     else Ok None) ;;
  categorical_summary <-
    foldM (summary_step df profile) (categorical_cols profile) [] ;;
  Ok {| statistics := statistics;
        correlations := correlations;
        categorical_summary := categorical_summary |}.
End Analysis.

(** A stand-in instance of the external routines, for running the model
    on concrete tables: no row is labelled an outlier and the float
    results carry no information. *)
Definition trivial_external : External :=
  {| float := unit;
     lof_fit_predict := fun X => map (fun _ => 1%Z) X;
     iso_fit_predict := fun X => map (fun _ => 1%Z) X;
     std_round2 := fun _ => tt;
     pearson := fun _ _ => tt;
     str_of_number := fun _ => "" |}.

(* ================================================================== *)
(** ** Vocabulary of the specification *)

(** The column [col] of [df], when it exists. *)
Definition column_of (df : DataFrame) (col : string) : option column :=
  assoc col (columns df).

(** No cell of the column is missing. *)
Definition complete (c : column) : Prop := missing_count c = 0.

(** At least one cell of the column is present. *)
Definition has_value (c : column) : Prop :=
  existsb negb (col_isnull c) = true.

(** The column [col] of the table exists and has a present cell. *)
Definition has_value_in (df : DataFrame) (col : string) : Prop :=
  exists c, column_of df col = Some c /\ has_value c.

(** The column [col] of the table exists and has no missing cell. *)
Definition complete_in (df : DataFrame) (col : string) : Prop :=
  exists c, column_of df col = Some c /\ complete c.

(** What the body of a filling loop does to column [col]: it keeps it
    complete, keeps its values, and completes it when the body runs on
    [col] itself and [col] is in the missing map. *)
Definition fills (profile : Profile) (col : string)
           (step : DataFrame -> string -> result DataFrame) : Prop :=
  forall d k d',
    step d k = Ok d' ->
    (complete_in d col -> complete_in d' col)
    /\ (has_value_in d col -> has_value_in d' col)
    /\ (k = col -> in_missing col profile = true ->
        has_value_in d col -> complete_in d' col).

(** [col] is eligible: it is in the missing map with a percentage at or
    below the threshold. *)
Definition eligible (profile : Profile) (th : Q) (col : string) : Prop :=
  In col (map fst (cols_to_impute profile th)).

(** [col] exceeds the threshold. *)
Definition over_threshold (profile : Profile) (th : Q) (col : string) : Prop :=
  exists pct, In (col, pct) (missing profile) /\ (th < pct)%Q.

(** [M] is the largest of the percentages [pcts]. *)
Definition is_max (M : Q) (pcts : list Q) : Prop :=
  (exists x, In x pcts /\ (x == M)%Q) /\ Forall (fun x => (x <= M)%Q) pcts.

(** [M] is the largest missing percentage among the eligible columns:
    some entry of the missing map at or below the threshold has it, and
    no entry at or below the threshold exceeds it.  The entries over the
    threshold do not count. *)
Definition max_eligible_missing (profile : Profile) (th M : Q) : Prop :=
  (exists col pct,
      In (col, pct) (missing profile) /\ (pct <= th)%Q /\ (pct == M)%Q)
  /\ (forall col pct,
         In (col, pct) (missing profile) -> (pct <= th)%Q -> (pct <= M)%Q).

Definition known_imputation_method (m : string) : Prop :=
  In m ["auto"; "simple"; "knn"; "random_forest"].

Definition known_outlier_method (m : string) : Prop :=
  In m ["auto"; "iqr"; "knn"; "isolation_forest"].

(** The profile names as numeric only numeric columns of the table, and
    as categorical only columns of the table. *)
Definition numeric_in (df : DataFrame) (col : string) : Prop :=
  exists xs, column_of df col = Some (NumCol xs).

Definition profile_fits (df : DataFrame) (profile : Profile) : Prop :=
  Forall (numeric_in df) (numeric_cols profile)
  /\ Forall (fun col => column_of df col <> None) (categorical_cols profile).






(** The method names [knn] and [random_forest] are the only difference. *)
Definition same_but_name (r1 r2 : CleaningResult) : Prop :=
  imputed_columns r1 = imputed_columns r2
  /\ skipped_columns r1 = skipped_columns r2
  /\ ((method_used r1 = "knn" /\ method_used r2 = "random_forest")
      \/ (method_used r1 = "none" /\ method_used r2 = "none")).

(* ================================================================== *)
(** ** Example tables *)

Definition ints (l : list Z) : list (option Q) :=
  map (fun z => Some (inject_Z z)) l.

(** A table with no column at all. *)
Definition no_columns : DataFrame := {| nrows := 0; columns := [] |}.

(** The table of [test_iqr_outlier_detection]. *)
Definition ages_incomes : DataFrame :=
  {| nrows := 6;
     columns :=
       [("age", NumCol (ints [25; 30; 35; 40; 45; 150]%Z));
        ("income",
         NumCol (ints [50000; 60000; 70000; 80000; 90000; 500000]%Z))] |}.

Definition ages_incomes_profile : Profile :=
  {| rows := 6; cols := 2; missing := [];
     numeric_cols := ["age"; "income"]; categorical_cols := [];
     date_cols := []; high_cardinality := []; dimensionality := "low" |}.

(** Two numeric columns over five rows: [a] misses 2 cells (40%), [b]
    misses 1 cell (20%). *)
Definition sparse_pair : DataFrame :=
  {| nrows := 5;
     columns :=
       [("a", NumCol [Some 1%Q; None; None; Some 4%Q; Some 5%Q]);
        ("b", NumCol [Some 1%Q; Some 2%Q; None; Some 4%Q; Some 5%Q])] |}.

(** What [profile_data] returns on [sparse_pair]. *)
Definition sparse_pair_profile : Profile :=
  {| rows := 5; cols := 2;
     missing := [("a", 40%Q); ("b", 20%Q)];
     numeric_cols := ["a"; "b"]; categorical_cols := [];
     date_cols := []; high_cardinality := []; dimensionality := "low" |}.

(** A text column with no value at all beside a complete one. *)
Definition empty_labels : DataFrame :=
  {| nrows := 2;
     columns := [("tag", ObjCol [None; None]);
                 ("id", ObjCol [Some "x"; Some "y"])] |}.

Definition empty_labels_profile : Profile :=
  {| rows := 2; cols := 2;
     missing := [("tag", 100%Q)];
     numeric_cols := []; categorical_cols := ["tag"; "id"];
     date_cols := []; high_cardinality := []; dimensionality := "low" |}.

(** The table of [test_simple_imputation]. *)
Definition people : DataFrame :=
  {| nrows := 5;
     columns :=
       [("age", NumCol [Some 25%Q; Some 30%Q; Some 35%Q; None; Some 40%Q]);
        ("income", NumCol [Some 50000%Q; Some 60000%Q; None;
                           Some 80000%Q; Some 90000%Q]);
        ("city", ObjCol [Some "NYC"; Some "LA"; None;
                         Some "NYC"; Some "LA"])] |}.

Definition people_profile : Profile :=
  {| rows := 5; cols := 3;
     missing := [("age", 20%Q); ("income", 20%Q); ("city", 20%Q)];
     numeric_cols := ["age"; "income"]; categorical_cols := ["city"];
     date_cols := []; high_cardinality := []; dimensionality := "low" |}.

(** [sparse_pair] after k-NN imputation: the missing cells of both
    columns hold the mean of the nearest donors. *)
Definition sparse_pair_knn : DataFrame :=
  {| nrows := 5;
     columns :=
       [("a", NumCol [Some 1%Q; Some (10 # 3)%Q; Some (10 # 3)%Q;
                      Some 4%Q; Some 5%Q]);
        ("b", NumCol [Some 1%Q; Some 2%Q; Some (12 # 4)%Q;
                      Some 4%Q; Some 5%Q])] |}.

(** A column of doubles given by their decimal names, out of order:
    the values 0.9, 0.1, 1.95, 0.6 and 0.2. *)
Definition decimals : DataFrame :=
  {| nrows := 5;
     columns :=
       [("x", NumCol [Some (fl (9 # 10)); Some (fl (1 # 10));
                      Some (fl (195 # 100)); Some (fl (6 # 10));
                      Some (fl (2 # 10))])] |}.

Definition decimals_profile : Profile :=
  {| rows := 5; cols := 1; missing := [];
     numeric_cols := ["x"]; categorical_cols := [];
     date_cols := []; high_cardinality := []; dimensionality := "low" |}.



(** Twenty-five rows: [a] misses 10 cells (40%), [b] misses 1 (4%). *)
Definition uneven : DataFrame :=
  {| nrows := 25;
     columns :=
       [("a", NumCol (repeat None 10 ++ repeat (Some 1%Q) 15));
        ("b", NumCol (None :: repeat (Some 2%Q) 24))] |}.

(** What [profile_data] returns on [uneven]. *)
Definition uneven_profile : Profile :=
  {| rows := 25; cols := 2;
     missing := [("a", 40%Q); ("b", 4%Q)];
     numeric_cols := ["a"; "b"]; categorical_cols := [];
     date_cols := []; high_cardinality := []; dimensionality := "low" |}.

(** An instance of the external routines that keeps track of what each
    result was computed from: a correlation is the pair of columns it
    was asked for. *)
Definition symbolic_external : External :=
  {| float := list (option Q) * list (option Q);
     lof_fit_predict := fun X => map (fun _ => 1%Z) X;
     iso_fit_predict := fun X => map (fun _ => 1%Z) X;
     std_round2 := fun xs => (xs, xs);
     pearson := fun xs ys => (xs, ys);
     str_of_number := fun _ => "" |}.

(** Two numeric columns over three rows: [a] has no value at all, [b]
    misses 1 cell of 3. *)
Definition hollow : DataFrame :=
  {| nrows := 3;
     columns :=
       [("a", NumCol [None; None; None]);
        ("b", NumCol [Some 1%Q; None; Some 3%Q])] |}.

(** What [profile_data] returns on [hollow]; the second percentage is
    the double 33.3. *)
Definition hollow_profile : Profile :=
  {| rows := 3; cols := 2;
     missing := [("a", 100%Q); ("b", fl (333 # 10))];
     numeric_cols := ["a"; "b"]; categorical_cols := [];
     date_cols := []; high_cardinality := []; dimensionality := "low" |}.

(** Twelve rows; row 0 has no value in [x]. *)
Definition dozen : DataFrame :=
  {| nrows := 12;
     columns :=
       [("x", NumCol (None :: ints [1; 2; 3; 4; 5; 6; 7; 8; 9; 10; 11]%Z));
        ("y", NumCol (ints [0; 1; 2; 3; 4; 5; 6; 7; 8; 9; 10; 11]%Z))] |}.

Definition dozen_profile : Profile :=
  {| rows := 12; cols := 2;
     missing := [("x", fl (83 # 10))];
     numeric_cols := ["x"; "y"]; categorical_cols := [];
     date_cols := []; high_cardinality := []; dimensionality := "low" |}.

(** An instance of the external routines whose detectors label the
    first row they are given an outlier and no other. *)
Definition first_row_external : External :=
  {| float := unit;
     lof_fit_predict :=
       fun X => match X with
                | [] => []
                | _ :: t => (-1)%Z :: map (fun _ => 1%Z) t
                end;
     iso_fit_predict :=
       fun X => match X with
                | [] => []
                | _ :: t => (-1)%Z :: map (fun _ => 1%Z) t
                end;
     std_round2 := fun _ => tt;
     pearson := fun _ _ => tt;
     str_of_number := fun _ => "" |}.

(* ================================================================== *)
(** ** More vocabulary: what a cleaning step may change *)

(** [ys] has the cells of [xs], the missing ones possibly filled. *)
Definition cells_kept {A : Type} (xs ys : list (option A)) : Prop :=
  length ys = length xs
  /\ forall i v, nth_error xs i = Some (Some v) ->
                 nth_error ys i = Some (Some v).

(** [c'] is a column of the same dtype and length as [c] that holds
    every value [c] holds. *)
Definition keeps_values (c c' : column) : Prop :=
  match c, c' with
  | NumCol xs, NumCol ys => cells_kept xs ys
  | DateCol xs, DateCol ys => cells_kept xs ys
  | ObjCol xs, ObjCol ys => cells_kept xs ys
  | _, _ => False
  end.

Definition column_kept (nc nc' : string * column) : Prop :=
  fst nc = fst nc' /\ keeps_values (snd nc) (snd nc').

(** [d'] is the table [d] with some missing cells filled: the same rows,
    the same columns under the same names and in the same order, every
    present value still in place. *)
Definition only_fills (d d' : DataFrame) : Prop :=
  nrows d' = nrows d /\ Forall2 column_kept (columns d) (columns d').

(** The column has no present cell. *)
Definition all_missing (c : column) : Prop :=
  existsb negb (col_isnull c) = false.

(** Row [i] has a value in every column the profile lists as numeric. *)
Definition complete_row (df : DataFrame) (profile : Profile) (i : nat) : Prop :=
  forall col, In col (numeric_cols profile) ->
              exists c, column_of df col = Some c
                        /\ nth i (col_isnull c) true = false.

(** The percentage [profile_data] records for a column with missing
    cells. *)
Definition missing_pct (df : DataFrame) (c : column) : Q :=
  np_round (fmul (fdiv (Qof_nat (missing_count c)) (Qof_nat (nrows df)))
                 100) 1.

Definition has_missing (nc : string * column) : bool :=
  0 <? missing_count (snd nc).

(** The method ['auto'] stands for in [detect_outliers]. *)
Definition outlier_tier (n_numeric : nat) : string :=
  if n_numeric <? 5 then "iqr"
  else if n_numeric <? 10 then "knn"
  else "isolation_forest".

(* ================================================================== *)
(** ** Basic facts *)

Lemma bind_Ok {A B : Type} (m : result A) (k : A -> result B) (b : B) :
  bind m k = Ok b -> exists a, m = Ok a /\ k a = Ok b.
Proof.
  destruct m as [a | e]; simpl; intros E; [exists a; auto | discriminate].
Qed.

Ltac inv_bind H :=
  let a := fresh "a" in
  let Ha := fresh "Ha" in
  apply bind_Ok in H; destruct H as (a & Ha & H).

Lemma Qlt_bool_iff (x y : Q) : Qlt_bool x y = true <-> (x < y)%Q.
Proof.
  unfold Qlt_bool. rewrite negb_true_iff. split; intros E.
  - apply Qnot_le_lt. intros L. apply Qle_bool_iff in L. congruence.
  - destruct (Qle_bool y x) eqn:L; auto.
    apply Qle_bool_iff in L. exfalso. exact (Qlt_not_le _ _ E L).
Qed.

Lemma Qlt_bool_false_iff (x y : Q) : Qlt_bool x y = false <-> (y <= x)%Q.
Proof.
  unfold Qlt_bool. rewrite negb_false_iff. apply Qle_bool_iff.
Qed.

Lemma mem_In (x : string) (l : list string) : mem x l = true <-> In x l.
Proof.
  unfold mem. rewrite existsb_exists. split.
  - intros (y & Hy & E). apply String.eqb_eq in E. now subst.
  - intros Hx. exists x. split; auto. apply String.eqb_refl.
Qed.

Lemma assoc_set_same {A : Type} (k : string) (v : A) (l : list (string * A)) :
  assoc k (assoc_set k v l) = Some v.
Proof.
  induction l as [| [k' v'] t IH]; simpl.
  - now rewrite String.eqb_refl.
  - destruct (String.eqb k k') eqn:E; simpl.
    + now rewrite String.eqb_refl.
    + now rewrite E.
Qed.

Lemma assoc_set_other {A : Type} (k k' : string) (v : A)
      (l : list (string * A)) :
  k <> k' -> assoc k' (assoc_set k v l) = assoc k' l.
Proof.
  intros N. induction l as [| [k0 v0] t IH]; simpl.
  - destruct (String.eqb k' k) eqn:E; auto.
    apply String.eqb_eq in E. congruence.
  - destruct (String.eqb k k0) eqn:E; simpl.
    + apply String.eqb_eq in E. subst k0.
      destruct (String.eqb k' k) eqn:E'; auto.
      apply String.eqb_eq in E'. congruence.
    + destruct (String.eqb k' k0); auto.
Qed.

Lemma column_of_setitem_same (df : DataFrame) (col : string) (c : column) :
  column_of (setitem df col c) col = Some c.
Proof. unfold column_of, setitem; simpl. apply assoc_set_same. Qed.

Lemma column_of_setitem_other (df : DataFrame) (k col : string) (c : column) :
  k <> col -> column_of (setitem df k c) col = column_of df col.
Proof. unfold column_of, setitem; simpl. apply assoc_set_other. Qed.

Lemma getitem_Ok (df : DataFrame) (col : string) (c : column) :
  getitem df col = Ok c <-> column_of df col = Some c.
Proof.
  unfold getitem, column_of. destruct (assoc col (columns df)); split;
    intros E; inversion E; auto.
Qed.

Lemma map_fst_combine {A B : Type} (l : list A) (l' : list B) :
  length l = length l' -> map fst (combine l l') = l.
Proof.
  revert l'. induction l as [| x t IH]; intros [| y u]; simpl;
    try discriminate; auto.
  intros E. f_equal. apply IH. now inversion E.
Qed.

(* ================================================================== *)
(** ** Method dispatch of the imputer and the outlier detector *)

Lemma cols_to_impute_none (profile : Profile) (th : Q) :
  Forall (fun cp => (th < snd cp)%Q) (missing profile) ->
  cols_to_impute profile th = [].
Proof.
  unfold cols_to_impute. induction 1 as [| cp l Hlt _ IH]; simpl; auto.
  destruct (Qle_bool (snd cp) th) eqn:E; auto.
  apply Qle_bool_iff in E. exfalso. exact (Qlt_not_le _ _ Hlt E).
Qed.

Lemma cols_to_impute_some_missing (profile : Profile) (th : Q) :
  cols_to_impute profile th <> [] -> missing profile <> [].
Proof.
  unfold cols_to_impute. destruct (missing profile); simpl; congruence.
Qed.

(** No eligible column: the imputer returns the table as it is. *)
Lemma impute_missing_nothing_eligible (df : DataFrame) (profile : Profile)
      (method : string) (th : Q) :
  cols_to_impute profile th = [] ->
  impute_missing df profile method th
  = Ok (df, {| imputed_columns := [];
               skipped_columns := map fst (skipped profile th);
               method_used := "none" |}).
Proof.
  intros E. unfold impute_missing. rewrite E.
  destruct (missing profile) eqn:M; auto.
  unfold skipped. now rewrite M.
Qed.

(** Some eligible column: the imputer dispatches on the method. *)
Lemma impute_missing_dispatch (df : DataFrame) (profile : Profile)
      (method : string) (th : Q) :
  cols_to_impute profile th <> [] ->
  impute_missing df profile method th
  = let method' :=
      if String.eqb method "auto"
      then auto_method (Qmax_list (map snd (cols_to_impute profile th)))
      else method in
    let impute_profile := with_missing profile (cols_to_impute profile th) in
    df' <- (if String.eqb method' "simple"
            then _simple_impute df impute_profile
            else if String.eqb method' "knn"
            then _knn_impute df impute_profile
            else if String.eqb method' "random_forest"
            then _random_forest_impute df impute_profile
            else Raise (ValueError
                          ("Unknown imputation method: " ++ method'))) ;;
    Ok (df', {| imputed_columns := map fst (cols_to_impute profile th);
                skipped_columns := map fst (skipped profile th);
                method_used := method' |}).
Proof.
  intros N. unfold impute_missing.
  pose proof (cols_to_impute_some_missing _ _ N) as M.
  destruct (missing profile) eqn:EM; [congruence |].
  destruct (cols_to_impute profile th) eqn:EC; [congruence |].
  reflexivity.
Qed.

Lemma eqb_neq_false (a b : string) : a <> b -> String.eqb a b = false.
Proof. intros N. now apply String.eqb_neq. Qed.

Ltac not_known :=
  let K := fresh "K" in
  intros K; simpl in K;
  repeat (destruct K as [K | K]; [discriminate K |]); exact K.

Ltac unknown_name K :=
  let Heq := fresh "Heq" in
  apply eqb_neq_false; intros Heq; apply K; rewrite Heq; auto 10.

(** C10.  Whenever the missing map of the profile is empty, or every
    percentage in it exceeds the threshold, [impute_missing] returns the
    table unchanged with [method_used = 'none'] whatever the method
    argument is, a name it does not know included; and whenever the
    profile lists no numeric column, [detect_outliers] returns the empty
    ['none'] result whatever the method argument is. *)
Theorem early_return_ignores_method :
  forall `{External} (df : DataFrame) (profile : Profile) (method : string)
         (th : Q),
    ((missing profile = []
      \/ Forall (fun cp => (th < snd cp)%Q) (missing profile)) ->
     impute_missing df profile method th
     = Ok (df, {| imputed_columns := [];
                  skipped_columns := map fst (skipped profile th);
                  method_used := "none" |}))
    /\ (numeric_cols profile = [] ->
        detect_outliers df profile method
        = Ok {| outlier_indices := [];
                outlier_method_used := "none";
                outlier_count := 0 |}).
Proof.
  intros E df profile method th. split.
  - intros Hm. apply impute_missing_nothing_eligible.
    apply cols_to_impute_none. destruct Hm as [Hm | Hm]; auto.
    rewrite Hm. constructor.
  - intros Hn. unfold detect_outliers. now rewrite Hn.
Qed.

Lemma early_return_ignores_method_witness :
  (impute_missing ages_incomes ages_incomes_profile "median" 30
   = Ok (ages_incomes, {| imputed_columns := [];
                          skipped_columns := [];
                          method_used := "none" |}))
  /\ (impute_missing sparse_pair sparse_pair_profile "median" 10
      = Ok (sparse_pair, {| imputed_columns := [];
                            skipped_columns := ["a"; "b"];
                            method_used := "none" |}))
  /\ (@detect_outliers trivial_external empty_labels empty_labels_profile
                       "zscore"
      = Ok {| outlier_indices := [];
              outlier_method_used := "none";
              outlier_count := 0 |}).
Proof.
  split; [| split].
  - apply (proj1 (@early_return_ignores_method trivial_external ages_incomes
                    ages_incomes_profile "median" 30)).
    left. reflexivity.
  - apply (proj1 (@early_return_ignores_method trivial_external sparse_pair
                    sparse_pair_profile "median" 10)).
    right. repeat constructor.
  - apply (proj2 (@early_return_ignores_method trivial_external empty_labels
                    empty_labels_profile "zscore" 30)).
    reflexivity.
Defined.

(** C5, as stated, fails: with nothing to impute, or no numeric column,
    an unknown method name is accepted and a result is returned. *)
Lemma unknown_method_accepted :
  ~ known_imputation_method "median"
  /\ impute_missing ages_incomes ages_incomes_profile "median" 30
     = Ok (ages_incomes, {| imputed_columns := [];
                            skipped_columns := [];
                            method_used := "none" |})
  /\ ~ known_outlier_method "zscore"
  /\ @detect_outliers trivial_external empty_labels empty_labels_profile
                      "zscore"
     = Ok {| outlier_indices := [];
             outlier_method_used := "none";
             outlier_count := 0 |}.
Proof.
  repeat split; try reflexivity; not_known.
Qed.

(** C5, amended.  When at least one column is eligible, [impute_missing]
    with a method outside auto, simple, knn and random_forest raises the
    unknown-method error; when the profile lists at least one numeric
    column, [detect_outliers] with a method outside auto, iqr, knn and
    isolation_forest raises the unknown-method error. *)
Theorem unknown_method_rejected :
  forall `{External} (df : DataFrame) (profile : Profile) (method : string)
         (th : Q),
    (~ known_imputation_method method ->
     cols_to_impute profile th <> [] ->
     impute_missing df profile method th
     = Raise (ValueError ("Unknown imputation method: " ++ method)))
    /\ (~ known_outlier_method method ->
        numeric_cols profile <> [] ->
        detect_outliers df profile method
        = Raise (ValueError ("Unknown outlier detection method: " ++ method))).
Proof.
  intros E df profile method th. split.
  - intros K N. rewrite impute_missing_dispatch by assumption.
    unfold known_imputation_method in K. simpl in K.
    assert (E1 : String.eqb method "auto" = false) by unknown_name K.
    assert (E2 : String.eqb method "simple" = false) by unknown_name K.
    assert (E3 : String.eqb method "knn" = false) by unknown_name K.
    assert (E4 : String.eqb method "random_forest" = false)
      by unknown_name K.
    rewrite E1. cbv beta iota zeta. rewrite E2, E3, E4. reflexivity.
  - intros K N. unfold detect_outliers.
    destruct (numeric_cols profile) eqn:EN; [congruence |].
    unfold known_outlier_method in K. simpl in K.
    assert (E1 : String.eqb method "auto" = false) by unknown_name K.
    assert (E2 : String.eqb method "iqr" = false) by unknown_name K.
    assert (E3 : String.eqb method "knn" = false) by unknown_name K.
    assert (E4 : String.eqb method "isolation_forest" = false)
      by unknown_name K.
    rewrite E1. cbv beta iota zeta. rewrite E2, E3, E4. reflexivity.
Qed.

Lemma unknown_method_rejected_witness :
  impute_missing sparse_pair sparse_pair_profile "median" 30
  = Raise (ValueError "Unknown imputation method: median")
  /\ @detect_outliers trivial_external ages_incomes ages_incomes_profile
                      "zscore"
     = Raise (ValueError "Unknown outlier detection method: zscore").
Proof.
  split.
  - apply (proj1 (@unknown_method_rejected trivial_external sparse_pair
                    sparse_pair_profile "median" 30)).
    + not_known.
    + vm_compute. discriminate.
  - apply (proj2 (@unknown_method_rejected trivial_external ages_incomes
                    ages_incomes_profile "zscore" 30)).
    + not_known.
    + vm_compute. discriminate.
Defined.

(* ================================================================== *)
(** ** Resolution of the ['auto'] imputation method *)

Lemma fold_max_spec (t : list Q) (x : Q) :
  let m := fold_left (fun m y => if Qlt_bool m y then y else m) t x in
  (m = x \/ In m t) /\ (x <= m)%Q /\ Forall (fun y => (y <= m)%Q) t.
Proof.
  revert x. induction t as [| y t IH]; intros x; simpl.
  - repeat split; auto. apply Qle_refl.
  - destruct (Qlt_bool x y) eqn:E.
    + destruct (IH y) as (Hin & Hle & Hall). apply Qlt_bool_iff in E.
      repeat split.
      * destruct Hin as [-> | Hin]; auto.
      * apply Qle_trans with y; auto. now apply Qlt_le_weak.
      * constructor; auto.
    + destruct (IH x) as (Hin & Hle & Hall). apply Qlt_bool_false_iff in E.
      repeat split.
      * destruct Hin as [-> | Hin]; auto.
      * assumption.
      * constructor; auto. now apply Qle_trans with x.
Qed.

Lemma Qmax_list_is_max (l : list Q) : l <> [] -> is_max (Qmax_list l) l.
Proof.
  destruct l as [| x t]; [congruence | intros _].
  unfold Qmax_list. destruct (fold_max_spec t x) as (Hin & Hle & Hall).
  split.
  - eexists. split; [| apply Qeq_refl].
    destruct Hin as [-> | Hin]; [now left | now right].
  - constructor; auto.
Qed.

Lemma is_max_unique (M M' : Q) (l : list Q) :
  is_max M l -> is_max M' l -> (M == M')%Q.
Proof.
  intros ((x & Hx & Ex) & Hall) ((x' & Hx' & Ex') & Hall').
  rewrite Forall_forall in Hall, Hall'.
  apply Qle_antisym.
  - rewrite <- Ex. now apply Hall'.
  - rewrite <- Ex'. now apply Hall.
Qed.

Lemma Qlt_bool_compat (x x' y : Q) :
  (x == x')%Q -> Qlt_bool x y = Qlt_bool x' y.
Proof.
  intros E. destruct (Qlt_bool x' y) eqn:L.
  - apply Qlt_bool_iff. apply Qlt_bool_iff in L. now rewrite E.
  - apply Qlt_bool_false_iff. apply Qlt_bool_false_iff in L. now rewrite E.
Qed.

Lemma auto_method_compat (x x' : Q) :
  (x == x')%Q -> auto_method x = auto_method x'.
Proof.
  intros E. unfold auto_method.
  now rewrite (Qlt_bool_compat 5 E), (Qlt_bool_compat 15 E).
Qed.

Lemma auto_method_thresholds (M : Q) :
  ((M < 5)%Q -> auto_method M = "simple")
  /\ ((5 <= M)%Q /\ (M < 15)%Q -> auto_method M = "knn")
  /\ ((15 <= M)%Q -> auto_method M = "random_forest").
Proof.
  unfold auto_method. repeat split.
  - intros L. apply Qlt_bool_iff in L. now rewrite L.
  - intros (L5 & L15). apply Qlt_bool_false_iff in L5.
    apply Qlt_bool_iff in L15. now rewrite L5, L15.
  - intros L. assert (L5 : (5 <= M)%Q).
    { apply Qle_trans with 15%Q; auto. discriminate. }
    apply Qlt_bool_false_iff in L5. apply Qlt_bool_false_iff in L.
    now rewrite L5, L.
Qed.

Lemma auto_method_cases (M : Q) :
  auto_method M = "simple" \/ auto_method M = "knn"
  \/ auto_method M = "random_forest".
Proof.
  unfold auto_method.
  destruct (Qlt_bool M 5); auto. destruct (Qlt_bool M 15); auto.
Qed.

Lemma max_eligible_missing_is_max (profile : Profile) (th M : Q) :
  max_eligible_missing profile th M ->
  cols_to_impute profile th <> []
  /\ is_max M (map snd (cols_to_impute profile th)).
Proof.
  intros ((col & pct & I & L & E) & U).
  assert (IC : In (col, pct) (cols_to_impute profile th)).
  { apply filter_In. split; [exact I |]. now apply Qle_bool_iff. }
  split.
  - intros N. rewrite N in IC. destruct IC.
  - split.
    + exists pct. split; [| exact E]. apply in_map_iff. now exists (col, pct).
    + apply Forall_forall. intros x Hx. apply in_map_iff in Hx.
      destruct Hx as ([c p] & <- & Hp). apply filter_In in Hp.
      destruct Hp as (Hp & Lp). simpl in *. apply Qle_bool_iff in Lp. eauto.
Qed.

(** C4.  Let [M] be the largest missing percentage among the entries of
    the profile's missing map that are at or below the threshold, the
    entries over the threshold not counting.  Then [impute_missing]
    with method auto is the call with method simple when [M < 5], with
    method knn when [5 <= M < 15] and with method random_forest when
    [15 <= M], result or error alike; and the result it returns reports
    that method as [method_used]. *)
Theorem auto_resolves_by_max_eligible :
  forall (df : DataFrame) (profile : Profile) (th M : Q),
    max_eligible_missing profile th M ->
    ((M < 5)%Q ->
     impute_missing df profile "auto" th
     = impute_missing df profile "simple" th
     /\ forall df' r, impute_missing df profile "auto" th = Ok (df', r) ->
                      method_used r = "simple")
    /\ ((5 <= M)%Q /\ (M < 15)%Q ->
        impute_missing df profile "auto" th
        = impute_missing df profile "knn" th
        /\ forall df' r, impute_missing df profile "auto" th = Ok (df', r) ->
                         method_used r = "knn")
    /\ ((15 <= M)%Q ->
        impute_missing df profile "auto" th
        = impute_missing df profile "random_forest" th
        /\ forall df' r, impute_missing df profile "auto" th = Ok (df', r) ->
                         method_used r = "random_forest").
Proof.
  intros df profile th M HM.
  destruct (max_eligible_missing_is_max HM) as (N & Hmax).
  assert (EM : auto_method (Qmax_list (map snd (cols_to_impute profile th)))
               = auto_method M).
  { apply auto_method_compat. apply is_max_unique with
      (l := map snd (cols_to_impute profile th)); auto.
    apply Qmax_list_is_max. destruct (cols_to_impute profile th);
      simpl; congruence. }
  assert (EQ : impute_missing df profile "auto" th
               = impute_missing df profile (auto_method M) th).
  { rewrite !impute_missing_dispatch by assumption. cbv zeta.
    replace (String.eqb "auto" "auto") with true by reflexivity.
    cbv beta iota. rewrite EM.
    assert (NA : String.eqb (auto_method M) "auto" = false)
      by (destruct (auto_method_cases M) as [-> | [-> | ->]]; reflexivity).
    rewrite NA. reflexivity. }
  assert (MU : forall df' r,
             impute_missing df profile "auto" th = Ok (df', r) ->
             method_used r = auto_method M).
  { intros df' r Hr. rewrite impute_missing_dispatch in Hr by assumption.
    cbv zeta in Hr.
    replace (String.eqb "auto" "auto") with true in Hr by reflexivity.
    cbv beta iota in Hr. rewrite EM in Hr.
    inv_bind Hr. inversion Hr. reflexivity. }
  destruct (auto_method_thresholds M) as (T1 & T2 & T3).
  split; [| split]; intros HT.
  - rewrite <- (T1 HT). split; auto.
  - rewrite <- (T2 HT). split; auto.
  - rewrite <- (T3 HT). split; auto.
Qed.

Lemma auto_resolves_by_max_eligible_witness :
  max_eligible_missing uneven_profile 30 4
  /\ impute_missing uneven uneven_profile "auto" 30
     = impute_missing uneven uneven_profile "simple" 30
  /\ exists df',
       impute_missing uneven uneven_profile "auto" 30
       = Ok (df', {| imputed_columns := ["b"];
                     skipped_columns := ["a"];
                     method_used := "simple" |}).
Proof.
  assert (HM : max_eligible_missing uneven_profile 30 4).
  { split.
    - exists "b", 4%Q. split; [right; now left |].
      split; [discriminate | reflexivity].
    - intros col pct [I | [I | []]] L; inversion I; subst.
      + exfalso. apply L. reflexivity.
      + discriminate. }
  destruct (@auto_resolves_by_max_eligible uneven uneven_profile 30 4 HM)
    as (Hsimple & _).
  destruct (Hsimple eq_refl) as (Heq & Hused).
  split; [exact HM |]. split; [exact Heq |].
  destruct (impute_missing uneven uneven_profile "auto" 30)
    as [[df' r] | e] eqn:E.
  2:{ exfalso. vm_compute in E. discriminate E. }
  exists df'. f_equal. f_equal.
  pose proof (Hused df' r eq_refl) as U.
  assert (R : match impute_missing uneven uneven_profile "auto" 30 with
              | Ok (_, r) => imputed_columns r = ["b"]
                             /\ skipped_columns r = ["a"]
              | Raise _ => False
              end) by (vm_compute; auto).
  rewrite E in R. destruct R as (R1 & R2).
  destruct r; simpl in *. congruence.
Defined.

(* ================================================================== *)
(** ** The random-forest placeholder *)

(** C8.  For every table, profile and threshold, [impute_missing] with
    method random_forest does what it does with method knn: both raise
    the same error, or both return the same cleaned table with the same
    imputed and skipped columns, the reported method name being the only
    difference. *)
Theorem random_forest_is_knn :
  forall (df : DataFrame) (profile : Profile) (th : Q),
    match impute_missing df profile "knn" th,
          impute_missing df profile "random_forest" th with
    | Ok (d1, r1), Ok (d2, r2) => d1 = d2 /\ same_but_name r1 r2
    | Raise e1, Raise e2 => e1 = e2
    | _, _ => False
    end.
Proof.
  intros df profile th.
  destruct (cols_to_impute profile th) eqn:EC.
  - rewrite !impute_missing_nothing_eligible by assumption.
    unfold same_but_name; simpl. tauto.
  - assert (N : cols_to_impute profile th <> []) by congruence.
    rewrite !impute_missing_dispatch by assumption. rewrite EC.
    cbv zeta. simpl String.eqb. cbv beta iota.
    unfold _random_forest_impute.
    destruct (_knn_impute df (with_missing profile (p :: l))) as [d | e];
      simpl; unfold same_but_name; simpl; tauto.
Qed.

(* ================================================================== *)
(** ** The profiler *)

(** C2, as stated, fails: a table with zero columns is profiled like any
    other and nothing is raised. *)
Lemma profile_of_no_columns :
  columns no_columns = []
  /\ profile_data no_columns
     = Ok {| rows := 0; cols := 0; missing := [];
             numeric_cols := []; categorical_cols := []; date_cols := [];
             high_cardinality := []; dimensionality := "low" |}.
Proof. split; reflexivity. Qed.

Lemma select_dtypes_incl (df : DataFrame) (p : column -> bool) (col : string) :
  In col (select_dtypes df p) ->
  exists c, In (col, c) (columns df) /\ p c = true.
Proof.
  unfold select_dtypes. rewrite in_map_iff.
  intros ([k c] & E & Hin). simpl in E. subst k.
  apply filter_In in Hin. destruct Hin as (Hin & Hp). now exists c.
Qed.

(** C2, amended.  [profile_data] fails on no table: for every table,
    with or without columns, it returns a profile, which reports the row
    and column counts of the table; on a table with zero columns the
    missing map and the column lists of the profile are empty and the
    dimensionality is low. *)
Theorem profile_data_total :
  forall df : DataFrame,
    exists p : Profile,
      profile_data df = Ok p
      /\ rows p = nrows df
      /\ cols p = length (columns df)
      /\ (forall col, In col (numeric_cols p) ->
                      exists c, In (col, c) (columns df) /\ is_number c = true)
      /\ (forall col, In col (categorical_cols p) ->
                      exists c, In (col, c) (columns df) /\ is_object c = true)
      /\ (dimensionality p = "high" <-> 10 <= length (numeric_cols p))
      /\ (columns df = [] ->
          cols p = 0 /\ missing p = [] /\ numeric_cols p = []
          /\ categorical_cols p = [] /\ date_cols p = []
          /\ high_cardinality p = [] /\ dimensionality p = "low").
Proof.
  intros df. eexists. split; [reflexivity |].
  cbn [rows cols missing numeric_cols categorical_cols date_cols
       high_cardinality dimensionality].
  split; [reflexivity | split; [reflexivity |]].
  split; [apply select_dtypes_incl | split; [apply select_dtypes_incl |]].
  split.
  - destruct (10 <=? length (select_dtypes df is_number)) eqn:E.
    + apply Nat.leb_le in E. split; [intros _; exact E | reflexivity].
    + apply Nat.leb_gt in E. split; [discriminate | lia].
  - intros E. unfold missing_of, date_cols_of, high_cardinality_of,
      select_dtypes. rewrite E. simpl. repeat split; reflexivity.
Qed.
(* ================================================================== *)
(** ** Rounding to a double *)



Lemma pow2_lt (e e' : Z) : (e < e')%Z -> (pow2 e < pow2 e')%Q.
Proof. intros H. apply Qpower_lt_compat_l; [exact H | reflexivity]. Qed.














(* ================================================================== *)
(** ** Order statistics and quantiles *)













(* ================================================================== *)
(** ** Outlier detection *)

Lemma mapM_length {A B : Type} (f : A -> result B) (l : list A) (l' : list B) :
  mapM f l = Ok l' -> length l' = length l.
Proof.
  revert l'. induction l as [| x t IH]; simpl; intros l' E.
  - inversion E. reflexivity.
  - inv_bind E. inv_bind E. inversion E. simpl. f_equal. now apply IH.
Qed.

Lemma mapM_total {A B : Type} (f : A -> result B) (l : list A) :
  Forall (fun x => exists y, f x = Ok y) l -> exists l', mapM f l = Ok l'.
Proof.
  induction 1 as [| x t (y & Hy) _ (ys & Hys)]; simpl.
  - now exists [].
  - rewrite Hy, Hys. simpl. now exists (y :: ys).
Qed.

(** *** Sorting and sets of row indices *)

Lemma insert_nat_In (x y : nat) (l : list nat) :
  In y (insert_nat x l) <-> y = x \/ In y l.
Proof.
  induction l as [| z t IH]; simpl.
  - intuition.
  - destruct (x <=? z); simpl; rewrite ?IH; intuition.
Qed.

Lemma sorted_In (x : nat) (l : list nat) : In x (sorted l) <-> In x l.
Proof.
  unfold sorted. induction l as [| y t IH]; simpl.
  - tauto.
  - rewrite insert_nat_In, IH. intuition.
Qed.

Lemma insert_nat_sorted (x : nat) (l : list nat) :
  ~ In x l -> StronglySorted lt l -> StronglySorted lt (insert_nat x l).
Proof.
  intros Hx Hs. induction Hs as [| z t Hs IH Hz]; simpl.
  - repeat constructor.
  - assert (Nz : x <> z) by (intros ->; apply Hx; now left).
    assert (Nt : ~ In x t) by (intros I; apply Hx; now right).
    destruct (x <=? z) eqn:E.
    + apply Nat.leb_le in E. constructor.
      * now constructor.
      * constructor; [lia |].
        rewrite Forall_forall in *. intros w Hw. specialize (Hz w Hw). lia.
    + apply Nat.leb_gt in E. constructor.
      * now apply IH.
      * rewrite Forall_forall in *. intros w Hw.
        apply insert_nat_In in Hw. destruct Hw as [-> | Hw]; auto.
Qed.

Lemma sorted_ascending (l : list nat) :
  NoDup l -> StronglySorted lt (sorted l).
Proof.
  unfold sorted. induction 1 as [| x t Hx _ IH]; simpl.
  - constructor.
  - apply insert_nat_sorted; auto.
    intros I. apply Hx. now apply (sorted_In x t).
Qed.

Lemma existsb_nat_In (x : nat) (l : list nat) :
  existsb (Nat.eqb x) l = true <-> In x l.
Proof.
  rewrite existsb_exists. split.
  - intros (y & Hy & E). apply Nat.eqb_eq in E. now subst.
  - intros Hx. exists x. split; auto. apply Nat.eqb_refl.
Qed.

Lemma set_update_In (x : nat) (xs s : list nat) :
  In x (set_update s xs) <-> In x s \/ In x xs.
Proof.
  unfold set_update. revert s. induction xs as [| y t IH]; intros s; simpl.
  - tauto.
  - rewrite IH. destruct (existsb (Nat.eqb y) s) eqn:E.
    + apply existsb_nat_In in E. intuition (subst; auto).
    + rewrite in_app_iff. simpl. intuition.
Qed.

Lemma set_update_NoDup (xs s : list nat) :
  NoDup s -> NoDup (set_update s xs).
Proof.
  unfold set_update. revert s. induction xs as [| y t IH]; intros s Hs; simpl.
  - assumption.
  - apply IH. destruct (existsb (Nat.eqb y) s) eqn:E; auto.
    assert (Ny : ~ In y s).
    { intros I. apply existsb_nat_In in I. congruence. }
    clear E IH. induction Hs as [| z u Hz Hu IHu]; simpl.
    + repeat constructor. intros [].
    + constructor.
      * rewrite in_app_iff. simpl. intros [I | [-> | []]]; auto.
        apply Ny. now left.
      * apply IHu. intros I. apply Ny. now right.
Qed.

(** *** The interquartile-range rule *)




(** The set built by the loop of [_iqr_outliers]. *)
Lemma iqr_loop_spec (df : DataFrame) (cols : list string) (acc S : list nat) :
  foldM (fun outlier_indices col =>
           c <- getitem df col ;;
           xs <- ordered_cells c ;;
           Ok (set_update outlier_indices (iqr_column_outliers xs)))
        cols acc = Ok S ->
  (NoDup acc -> NoDup S)
  /\ (forall i,
         In i S
         <-> In i acc
             \/ exists col c xs,
                  In col cols /\ column_of df col = Some c
                  /\ ordered_cells c = Ok xs
                  /\ In i (iqr_column_outliers xs)).
Proof.
  revert acc. induction cols as [| col t IH]; simpl; intros acc E.
  - inversion E; subst. split; auto. intros i. split; auto.
    intros [I | (col & c & xs & [] & _)]. exact I.
  - inv_bind E. rename a into acc'. inv_bind Ha. rename a into c.
    inv_bind Ha. rename a into xs. inversion Ha; subst acc'. clear Ha.
    apply getitem_Ok in Ha0.
    destruct (IH _ E) as (Hnd & Hin). split.
    + intros Hacc. apply Hnd. now apply set_update_NoDup.
    + intros i. rewrite Hin, set_update_In. split.
      * intros [[I | I] | (col' & c' & xs' & I & R)]; auto.
        -- right. exists col, c, xs. auto.
        -- right. exists col', c', xs'. tauto.
      * intros [I | (col' & c' & xs' & [-> | I] & Hc & Hx & Hi)]; auto.
        -- left. right. rewrite Ha0 in Hc. inversion Hc; subst c'.
           rewrite Ha1 in Hx. inversion Hx; subst xs'. exact Hi.
        -- right. exists col', c', xs'. auto.
Qed.





(** *** Too few complete rows *)



(* ================================================================== *)
(** ** The analyzer *)

(** The float matrix handed to the imputer holds the cells of the
    selected columns. *)
Lemma selected_columns (df : DataFrame) (cols : list string)
      (sub : list column) (X : list (list (option Q))) :
  mapM (getitem df) cols = Ok sub ->
  mapM to_float sub = Ok X ->
  Forall2 (fun k x => column_of df k = Some (NumCol x)) cols X.
Proof.
  revert sub X. induction cols as [| k t IH]; simpl; intros sub X E1 E2.
  - inversion E1; subst. inversion E2. constructor.
  - apply bind_Ok in E1. destruct E1 as (c & Hc & E1).
    apply bind_Ok in E1. destruct E1 as (cs & Hcs & E1).
    inversion E1; subst sub. simpl in E2.
    apply bind_Ok in E2. destruct E2 as (x & Hx & E2).
    apply bind_Ok in E2. destruct E2 as (xs & Hxs & E2).
    inversion E2; subst X. constructor; eauto.
    apply getitem_Ok in Hc. destruct c; inversion Hx; subst. exact Hc.
Qed.

(** Looking a name up in a dictionary built from a list of names and
    a list of values of the same length. *)
Lemma assoc_named {B C : Type} (P : string -> B -> Prop)
      (f : string * B -> C) (cols : list string) (X : list B) (a : string) :
  Forall2 P cols X ->
  In a cols ->
  exists x,
    P a x
    /\ assoc a (map (fun p => (fst p, f p)) (combine cols X))
       = Some (f (a, x)).
Proof.
  induction 1 as [| k x t u Hk _ IH]; simpl; [intros [] |].
  intros I. destruct (String.eqb a k) eqn:E.
  - apply String.eqb_eq in E. subst k. eauto.
  - destruct I as [-> | I]; [rewrite String.eqb_refl in E; discriminate |].
    auto.
Qed.

Section AnalysisFacts.
Context `{External}.

Lemma corr_to_dict_entries (df : DataFrame) (numeric_cols : list string)
      (m : list (string * list (string * float))) (a b : string) :
  corr_to_dict df numeric_cols = Ok m ->
  In a numeric_cols -> In b numeric_cols ->
  exists xa xb row,
    column_of df a = Some (NumCol xa)
    /\ column_of df b = Some (NumCol xb)
    /\ assoc a m = Some row
    /\ assoc b row = Some (pearson xa xb).
Proof.
  unfold corr_to_dict. intros E Ia Ib. inv_bind E. rename a0 into sub.
  inv_bind E. rename a0 into X. inversion E; subst m. clear E.
  pose proof (selected_columns _ _ Ha Ha0) as S.
  destruct (@assoc_named _ _ _
              (fun a => map (fun b => (fst b, pearson (snd a) (snd b)))
                            (combine numeric_cols X)) _ _ a S Ia)
    as (xa & Hxa & Ea).
  destruct (@assoc_named _ _ _ (fun b => pearson xa (snd b)) _ _ b S Ib)
    as (xb & Hxb & Eb).
  exists xa, xb. eexists. repeat split; eauto.
Qed.

Lemma corr_to_dict_keys (df : DataFrame) (numeric_cols : list string)
      (m : list (string * list (string * float))) :
  corr_to_dict df numeric_cols = Ok m ->
  map fst m = numeric_cols
  /\ Forall (fun row => map fst (snd row) = numeric_cols) m.
Proof.
  unfold corr_to_dict. intros E. inv_bind E. rename a into sub.
  inv_bind E. rename a into X. inversion E; subst m. clear E.
  assert (L : length numeric_cols = length X).
  { apply mapM_length in Ha, Ha0. congruence. }
  split.
  - rewrite map_map. simpl. now apply map_fst_combine.
  - apply Forall_forall. intros row Hrow. apply in_map_iff in Hrow.
    destruct Hrow as (a & <- & _). simpl.
    rewrite map_map. simpl. now apply map_fst_combine.
Qed.

Lemma describe_loop_total (df : DataFrame) (cols : list string)
      (acc : list (string * Stats)) :
  Forall (numeric_in df) cols ->
  exists s, foldM (describe_step df) cols acc = Ok s.
Proof.
  intros F. revert acc. induction F as [| col t (xs & Hc) _ IH]; intros acc.
  - now exists acc.
  - simpl. unfold describe_step at 1. apply getitem_Ok in Hc.
    rewrite Hc. simpl. apply IH.
Qed.

Lemma summary_loop_total (df : DataFrame) (profile : Profile)
      (cols : list string) (acc : list (string * list (string * nat))) :
  Forall (fun col => column_of df col <> None) cols ->
  exists s, foldM (summary_step df profile) cols acc = Ok s.
Proof.
  intros F. revert acc. induction F as [| col t Hc _ IH]; intros acc.
  - now exists acc.
  - simpl. unfold summary_step at 1.
    destruct (negb (mem col (high_cardinality profile))); simpl.
    + unfold getitem. unfold column_of in Hc.
      destruct (assoc col (columns df)); [| congruence]. simpl. apply IH.
    + apply IH.
Qed.

Lemma to_float_total (df : DataFrame) (cols : list string)
      (sub : list column) :
  Forall (numeric_in df) cols ->
  mapM (getitem df) cols = Ok sub ->
  exists X, mapM to_float sub = Ok X.
Proof.
  intros F. revert sub. induction F as [| col t (xs & Hc) _ IH];
    simpl; intros sub E.
  - inversion E. now exists [].
  - apply getitem_Ok in Hc. rewrite Hc in E. simpl in E.
    inv_bind E. inversion E; subst sub. simpl.
    destruct (IH _ Ha) as (X & ->). simpl. eauto.
Qed.

Lemma getitem_list_total (df : DataFrame) (cols : list string) :
  Forall (numeric_in df) cols -> exists sub, mapM (getitem df) cols = Ok sub.
Proof.
  intros F. apply mapM_total. apply Forall_impl with (2 := F).
  intros col (xs & Hc). apply getitem_Ok in Hc. eauto.
Qed.

Lemma analyze_data_total (df : DataFrame) (profile : Profile) :
  profile_fits df profile -> exists r, analyze_data df profile = Ok r.
Proof.
  intros (Fn & Fc). unfold analyze_data.
  destruct (describe_loop_total [] Fn) as (st & Hst).
  destruct (@summary_loop_total df profile _ [] Fc) as (cs & Hcs).
  destruct (getitem_list_total Fn) as (sub & Hsub).
  destruct (to_float_total Fn Hsub) as (X & HX).
  rewrite Hst. cbn [bind].
  destruct (2 <=? length (numeric_cols profile)).
  - unfold corr_to_dict. rewrite Hsub. cbn [bind]. rewrite HX.
    cbn [bind]. rewrite Hcs. cbn [bind]. eauto.
  - cbn [bind]. rewrite Hcs. cbn [bind]. eauto.
Qed.

(** C9.  Whenever [analyze_data] returns, the [correlations] field of
    its result holds a matrix if and only if the profile lists at least
    2 numeric columns, and is [None] otherwise.  The matrix, when there
    is one, has one row per numeric column of the profile and in each
    row one entry per numeric column; the entry of row [a] at [b] is
    the Pearson correlation of the cells of column [a] of the table
    with the cells of column [b], both numeric.  [analyze_data] does
    return whenever the profile fits the table. *)
Theorem correlations_iff_two_numeric_columns :
  forall (df : DataFrame) (profile : Profile),
    (forall r,
        analyze_data df profile = Ok r ->
        ((exists m, correlations r = Some m)
         <-> 2 <= length (numeric_cols profile))
        /\ (length (numeric_cols profile) < 2 -> correlations r = None)
        /\ (forall m,
               correlations r = Some m ->
               map fst m = numeric_cols profile
               /\ Forall (fun row => map fst (snd row)
                                     = numeric_cols profile) m
               /\ forall a b,
                    In a (numeric_cols profile) ->
                    In b (numeric_cols profile) ->
                    exists xa xb row,
                      column_of df a = Some (NumCol xa)
                      /\ column_of df b = Some (NumCol xb)
                      /\ assoc a m = Some row
                      /\ assoc b row = Some (pearson xa xb)))
    /\ (profile_fits df profile ->
        exists r, analyze_data df profile = Ok r).
Proof.
  intros df profile. split.
  - intros r Hr. unfold analyze_data in Hr.
    apply bind_Ok in Hr. destruct Hr as (st & Hst & Hr).
    apply bind_Ok in Hr. destruct Hr as (co & Hco & Hr).
    apply bind_Ok in Hr. destruct Hr as (cs & Hcs & Hr).
    inversion Hr; subst r; simpl. clear Hr.
    destruct (2 <=? length (numeric_cols profile)) eqn:E2.
    + apply Nat.leb_le in E2.
      apply bind_Ok in Hco. destruct Hco as (corr & Hcorr & Hco).
      inversion Hco; subst co.
      split; [split; eauto |]. split; [lia |].
      intros m Hm. inversion Hm; subst m.
      destruct (corr_to_dict_keys _ _ Hcorr) as (K1 & K2).
      split; [exact K1 |]. split; [exact K2 |].
      intros a b Ia Ib. exact (@corr_to_dict_entries _ _ _ a b Hcorr Ia Ib).
    + apply Nat.leb_gt in E2. inversion Hco; subst co.
      split; [split; [intros (m & Hm); discriminate | lia] |].
      split; [reflexivity | discriminate].
  - apply analyze_data_total.
Qed.

End AnalysisFacts.

Lemma correlations_iff_two_numeric_columns_witness :
  exists r m row,
    @analyze_data symbolic_external ages_incomes ages_incomes_profile = Ok r
    /\ correlations r = Some m
    /\ map fst m = ["age"; "income"]
    /\ assoc "age" m = Some row
    /\ assoc "income" row
       = Some (ints [25; 30; 35; 40; 45; 150]%Z,
               ints [50000; 60000; 70000; 80000; 90000; 500000]%Z).
Proof.
  destruct (@correlations_iff_two_numeric_columns symbolic_external
              ages_incomes ages_incomes_profile) as (Hspec & Htotal).
  destruct Htotal as (r & Hr).
  { split; repeat constructor; eexists; vm_compute; reflexivity. }
  destruct (Hspec r Hr) as (Hiff & _ & Hkeys).
  destruct (proj2 Hiff) as (m & Hm); [simpl; lia |].
  destruct (Hkeys m Hm) as (K1 & _ & Hentry).
  destruct (Hentry "age" "income") as (xa & xb & row & Ca & Cb & Ra & Rb);
    [simpl; auto | simpl; auto |].
  exists r, m, row. split; [exact Hr |]. split; [exact Hm |].
  split; [exact K1 |]. split; [exact Ra |].
  rewrite Rb. vm_compute in Ca, Cb. inversion Ca. inversion Cb. reflexivity.
Defined.

(* ================================================================== *)
(** ** Imputation of the eligible columns *)

(** *** Cells *)

Lemma count_true_zero (l : list bool) :
  length (filter (fun b => b) l) = 0 <-> Forall (fun b => b = false) l.
Proof.
  induction l as [| b t IH]; simpl.
  - split; auto.
  - destruct b; simpl.
    + split; [discriminate | intros F; inversion F; discriminate].
    + rewrite IH. split; [now constructor | intros F; now inversion F].
Qed.

Lemma complete_iff (c : column) :
  complete c <-> Forall (fun b => b = false) (col_isnull c).
Proof. apply count_true_zero. Qed.

Section Cells.
Variable A : Type.
Implicit Types (xs : list (option A)) (v : option A).

Lemma fillna_Some_full xs (a : A) :
  Forall (fun b => b = false) (map isnull (fillna xs (Some a))).
Proof.
  simpl. induction xs as [| [x |] t IH]; simpl; constructor; auto.
Qed.


Lemma has_value_dropna xs :
  existsb negb (map isnull xs) = true <-> dropna_cells xs <> [].
Proof.
  induction xs as [| [x |] t IH]; simpl.
  - split; [discriminate | congruence].
  - split; [discriminate | reflexivity].
  - exact IH.
Qed.

Lemma fillna_keeps_value xs v :
  existsb negb (map isnull xs) = true ->
  existsb negb (map isnull (fillna xs v)) = true.
Proof.
  destruct v as [a |]; auto. simpl.
  induction xs as [| [x |] t IH]; simpl; auto.
Qed.
End Cells.

(** *** Median and mode exist on a column with a value *)




Section ModeFacts.
Variable A : Type.
Variable eqb leb : A -> A -> bool.

Lemma least_exists (l : list A) : l <> [] -> exists a, least leb l = Some a.
Proof.
  destruct l as [| x t]; [congruence | intros _]. simpl.
  destruct (least leb t) as [y |]; [destruct (leb x y) |]; eauto.
Qed.

Lemma max_attained (f : A -> nat) (l : list A) :
  l <> [] -> exists a, In a l /\ f a = fold_right Nat.max 0 (map f l).
Proof.
  induction l as [| x t IH]; [congruence | intros _]. simpl.
  destruct t as [| y u].
  - exists x. split; auto. simpl. lia.
  - destruct IH as (a & Ha & Ea); [congruence |].
    destruct (Nat.max_spec (f x) (fold_right Nat.max 0 (map f (y :: u))))
      as [(_ & ->) | (_ & ->)].
    + exists a. auto.
    + exists x. auto.
Qed.

Lemma mode_first_exists (xs : list (option A)) :
  dropna_cells xs <> [] -> exists a, mode_first eqb leb xs = Some a.
Proof.
  intros N. unfold mode_first. apply least_exists.
  destruct (max_attained (fun v => occurrences eqb v (dropna_cells xs)) N)
    as (a & Ha & Ea).
  intros E.
  assert (I : In a (filter
                      (fun v =>
                         occurrences eqb v (dropna_cells xs)
                         =? fold_right Nat.max 0
                              (map (fun v0 => occurrences eqb v0
                                                (dropna_cells xs))
                                   (dropna_cells xs)))
                      (dropna_cells xs))).
  { apply filter_In. split; auto. now apply Nat.eqb_eq. }
  rewrite E in I. destruct I.
Qed.
End ModeFacts.

(** [fill_mode] fills every cell as soon as the column has a value. *)
Lemma fill_mode_complete (c c' : column) :
  fill_mode c = Some c' -> complete c'.
Proof.
  intros E. apply complete_iff.
  destruct c as [xs | xs | xs]; simpl in E.
  - destruct (mode_first Qeq_bool Qle_bool xs); inversion E.
    apply fillna_Some_full.
  - destruct (mode_first Qeq_bool Qle_bool xs); inversion E.
    apply fillna_Some_full.
  - destruct (mode_first String.eqb String.leb xs); inversion E.
    apply fillna_Some_full.
Qed.

Lemma fill_mode_exists (c : column) :
  has_value c -> exists c', fill_mode c = Some c'.
Proof.
  unfold has_value. destruct c as [xs | xs | xs]; simpl; intros V;
    apply has_value_dropna in V.
  - destruct (mode_first_exists Qeq_bool Qle_bool _ V) as (a & ->). eauto.
  - destruct (mode_first_exists Qeq_bool Qle_bool _ V) as (a & ->). eauto.
  - destruct (mode_first_exists String.eqb String.leb _ V) as (a & ->). eauto.
Qed.

Lemma fill_mode_keeps_value (c c' : column) :
  fill_mode c = Some c' -> has_value c -> has_value c'.
Proof.
  unfold has_value. intros F V. destruct c as [xs | xs | xs];
    unfold fill_mode in F.
  - destruct (mode_first Qeq_bool Qle_bool xs) as [a |]; inversion F.
    cbn [col_isnull] in *. now apply (fillna_keeps_value xs (Some a)).
  - destruct (mode_first Qeq_bool Qle_bool xs) as [a |]; inversion F.
    cbn [col_isnull] in *. now apply (fillna_keeps_value xs (Some a)).
  - destruct (mode_first String.eqb String.leb xs) as [a |]; inversion F.
    cbn [col_isnull] in *. now apply (fillna_keeps_value xs (Some a)).
Qed.



(** *** The filling loops, seen from one column *)

Section OneColumn.
Variable profile : Profile.
Variable col : string.

Lemma foldM_fills (step : DataFrame -> string -> result DataFrame)
      (cols : list string) (d d' : DataFrame) :
  fills profile col step ->
  foldM step cols d = Ok d' ->
  (complete_in d col -> complete_in d' col)
  /\ (has_value_in d col -> has_value_in d' col)
  /\ (In col cols -> in_missing col profile = true ->
      has_value_in d col -> complete_in d' col).
Proof.
  intros Hstep. revert d. induction cols as [| k t IH]; simpl; intros d E.
  - inversion E; subst. repeat split; auto. intros [].
  - inv_bind E. rename a into d1.
    destruct (Hstep _ _ _ Ha) as (S1 & S2 & S3).
    destruct (IH _ E) as (I1 & I2 & I3).
    repeat split; auto.
    intros [-> | I] M V; auto.
Qed.

Lemma setitem_fills (d : DataFrame) (k : string) (c c' : column) :
  column_of d k = Some c ->
  (complete c -> complete c') ->
  (has_value c -> has_value c') ->
  (complete_in d col -> complete_in (setitem d k c') col)
  /\ (has_value_in d col -> has_value_in (setitem d k c') col).
Proof.
  intros Hc Hcomp Hval. unfold complete_in, has_value_in.
  destruct (String.eqb k col) eqn:E.
  - apply String.eqb_eq in E. subst k.
    rewrite column_of_setitem_same. split; intros (c0 & E0 & P);
      rewrite Hc in E0; inversion E0; subst c0; eauto.
  - apply String.eqb_neq in E.
    rewrite column_of_setitem_other by assumption. auto.
Qed.


Lemma fill_mode_step_fills :
  fills profile col (fill_mode_step profile).
Proof.
  intros d k d' E. unfold fill_mode_step in E.
  destruct (in_missing k profile) eqn:M.
  2:{ inversion E; subst d'. repeat split; auto. intros ->. congruence. }
  inv_bind E. rename a into c. apply getitem_Ok in Ha.
  destruct (fill_mode c) as [c' |] eqn:F.
  - inversion E; subst d'. clear E.
    pose proof (fill_mode_complete _ F) as C'.
    pose proof (fill_mode_keeps_value F) as Hval.
    destruct (@setitem_fills d k c c' Ha (fun _ => C') Hval)
      as (S1 & S2).
    repeat split; auto.
    intros -> _ _. exists c'. split; [apply column_of_setitem_same | auto].
  - inversion E; subst d'. repeat split; auto.
    intros -> _ (c0 & E0 & V). rewrite Ha in E0. inversion E0; subst c0.
    destruct (fill_mode_exists V) as (c' & F'). congruence.
Qed.
End OneColumn.

(** *** The k-NN phase *)

Lemma impute_column_full (X : KNNImputer.matrix) (n : nat)
      (c : list (option Q)) :
  Forall (fun b => b = false) (map isnull (KNNImputer.impute_column X n c)).
Proof.
  unfold KNNImputer.impute_column. rewrite map_map.
  apply Forall_forall. intros b Hb. apply in_map_iff in Hb.
  destruct Hb as (r & <- & _). now destruct (nth r c None).
Qed.

Lemma fit_transform_full (n : nat) (X : KNNImputer.matrix)
      (y : list (option Q)) :
  In y (KNNImputer.fit_transform n X) -> complete (NumCol y).
Proof.
  unfold KNNImputer.fit_transform. intros I. apply in_map_iff in I.
  destruct I as (c & <- & _). apply complete_iff. apply impute_column_full.
Qed.

Lemma fold_setitem_spec (col : string) (kvs : list (string * list (option Q)))
      (d : DataFrame) :
  let d' := fold_left (fun d kv => setitem d (fst kv) (NumCol (snd kv)))
                      kvs d in
  (In col (map fst kvs)
   /\ exists y, In y (map snd kvs) /\ column_of d' col = Some (NumCol y))
  \/ (~ In col (map fst kvs) /\ column_of d' col = column_of d col).
Proof.
  revert d. induction kvs as [| [k v] t IH]; intros d; simpl.
  - right. split; auto.
  - destruct (IH (setitem d k (NumCol v))) as [(I & y & Hy & E) | (N & E)].
    + left. split; auto. exists y. split; auto.
    + simpl in E. destruct (String.eqb k col) eqn:K.
      * apply String.eqb_eq in K. subst k. left. split; auto.
        exists v. split; auto.
        rewrite E. apply column_of_setitem_same.
      * apply String.eqb_neq in K. right. split.
        -- intros [-> | I]; auto.
        -- rewrite E. now apply column_of_setitem_other.
Qed.

Lemma setitem_list_spec (col : string) (df d' : DataFrame)
      (cols : list string) (Y : list (list (option Q))) :
  setitem_list df cols Y = Ok d' ->
  (In col cols ->
   exists y, In y Y /\ column_of d' col = Some (NumCol y))
  /\ (~ In col cols -> column_of d' col = column_of df col).
Proof.
  unfold setitem_list. destruct (length Y =? length cols) eqn:L;
    [| discriminate].
  apply Nat.eqb_eq in L. intros E. inversion E; subst d'. clear E.
  pose proof (fold_setitem_spec col (combine cols Y) df) as S.
  cbv zeta in S. symmetry in L.
  rewrite (map_fst_combine _ _ L) in S.
  destruct S as [(I & y & Hy & E) | (N & E)]; split; intros I';
    try contradiction; auto.
  exists y. split; auto. apply in_map_iff in Hy.
  destruct Hy as ([k v] & <- & Hkv). simpl.
  now apply in_combine_r in Hkv.
Qed.












(* ================================================================== *)
(** ** Columns over the threshold *)

(** C1.  The k-NN path breaks the threshold rule.  On [sparse_pair],
    profiled by [profile_data], column [a] misses 40% of its cells and
    is over the threshold of 30: [impute_missing] with method knn (and
    with method auto, which resolves to the k-NN placeholder) reports
    [a] as skipped and not as imputed, and yet returns a table in which
    the two missing cells of [a] are filled. *)
Theorem knn_fills_a_skipped_column :
  profile_data sparse_pair = Ok sparse_pair_profile
  /\ over_threshold sparse_pair_profile 30 "a"
  /\ column_of sparse_pair "a"
     = Some (NumCol [Some 1%Q; None; None; Some 4%Q; Some 5%Q])
  /\ impute_missing sparse_pair sparse_pair_profile "knn" 30
     = Ok (sparse_pair_knn, {| imputed_columns := ["b"];
                               skipped_columns := ["a"];
                               method_used := "knn" |})
  /\ impute_missing sparse_pair sparse_pair_profile "auto" 30
     = Ok (sparse_pair_knn, {| imputed_columns := ["b"];
                               skipped_columns := ["a"];
                               method_used := "random_forest" |})
  /\ column_of sparse_pair_knn "a"
     = Some (NumCol [Some 1%Q; Some (10 # 3)%Q; Some (10 # 3)%Q;
                     Some 4%Q; Some 5%Q])
  /\ complete_in sparse_pair_knn "a".
Proof.
  split; [vm_compute; reflexivity |]. split.
  { exists 40%Q. split; [now left | reflexivity]. }
  split; [vm_compute; reflexivity |].
  split; [vm_compute; reflexivity |].
  split; [vm_compute; reflexivity |].
  split; [vm_compute; reflexivity |].
  eexists. split; vm_compute; reflexivity.
Qed.

(* ================================================================== *)
(** ** What the imputer reports *)






(** The method a returned result names is never ['auto']: it is ['none']
    exactly when no column is eligible, and otherwise the method that
    ran, which is the method asked for unless that was ['auto']. *)
Theorem method_used_is_the_method_that_ran :
  forall (df : DataFrame) (profile : Profile) (method : string) (th : Q)
         (df' : DataFrame) (r : CleaningResult),
    impute_missing df profile method th = Ok (df', r) ->
    In (method_used r) ["none"; "simple"; "knn"; "random_forest"]
    /\ (method_used r = "none" <-> cols_to_impute profile th = [])
    /\ (method <> "auto" -> cols_to_impute profile th <> [] ->
        method_used r = method).
Proof.
  intros df profile method th df' r E.
  destruct (cols_to_impute profile th) eqn:EC.
  - rewrite impute_missing_nothing_eligible in E by assumption.
    inversion E; subst. simpl. repeat split; auto. congruence.
  - assert (N : cols_to_impute profile th <> []) by congruence.
    rewrite impute_missing_dispatch in E by assumption. cbv zeta in E.
    rewrite EC in E. remember (p :: l) as elig.
    set (m := if String.eqb method "auto"
              then auto_method (Qmax_list (map snd elig))
              else method) in *.
    apply bind_Ok in E. destruct E as (d & Hd & E).
    inversion E; subst df' r. simpl. clear E.
    assert (K : m = "simple" \/ m = "knn" \/ m = "random_forest").
    { destruct (String.eqb m "simple") eqn:E1;
        [apply String.eqb_eq in E1; auto |].
      destruct (String.eqb m "knn") eqn:E2;
        [apply String.eqb_eq in E2; auto |].
      destruct (String.eqb m "random_forest") eqn:E3;
        [apply String.eqb_eq in E3; auto | discriminate]. }
    split; [| split].
    + destruct K as [-> | [-> | ->]]; simpl; auto.
    + split; [| congruence].
      intros En. destruct K as [K | [K | K]]; rewrite K in En;
        discriminate.
    + intros Na _. subst m. now rewrite (eqb_neq_false Na).
Qed.

Lemma method_used_is_the_method_that_ran_witness :
  In "random_forest" ["none"; "simple"; "knn"; "random_forest"].
Proof.
  assert (E : impute_missing sparse_pair sparse_pair_profile "auto" 30
              = Ok (sparse_pair_knn,
                    {| imputed_columns := ["b"];
                       skipped_columns := ["a"];
                       method_used := "random_forest" |}))
    by (vm_compute; reflexivity).
  exact (proj1 (method_used_is_the_method_that_ran _ _ _ _ E)).
Defined.

(* ================================================================== *)
(** ** Imputation only fills *)

Section CellsKept.
Variable A : Type.
Implicit Types xs ys zs : list (option A).

Lemma cells_kept_refl xs : cells_kept xs xs.
Proof. split; auto. Qed.

Lemma cells_kept_trans xs ys zs :
  cells_kept xs ys -> cells_kept ys zs -> cells_kept xs zs.
Proof.
  intros (L1 & K1) (L2 & K2). split; [congruence | auto].
Qed.

Lemma fillna_cells_kept xs (v : option A) : cells_kept xs (fillna xs v).
Proof.
  destruct v as [a |]; [| apply cells_kept_refl]. simpl. split.
  - apply length_map.
  - intros i w E. rewrite nth_error_map, E. reflexivity.
Qed.
End CellsKept.

Lemma keeps_values_refl (c : column) : keeps_values c c.
Proof. destruct c; simpl; apply cells_kept_refl. Qed.

Lemma keeps_values_trans (c1 c2 c3 : column) :
  keeps_values c1 c2 -> keeps_values c2 c3 -> keeps_values c1 c3.
Proof.
  destruct c1, c2, c3; simpl; try tauto; apply cells_kept_trans.
Qed.


Lemma column_kept_refl (nc : string * column) : column_kept nc nc.
Proof. split; [reflexivity | apply keeps_values_refl]. Qed.

Lemma column_kept_trans (a b c : string * column) :
  column_kept a b -> column_kept b c -> column_kept a c.
Proof.
  intros (N1 & K1) (N2 & K2). split; [congruence |].
  eapply keeps_values_trans; eauto.
Qed.

Lemma only_fills_refl (d : DataFrame) : only_fills d d.
Proof.
  split; auto. induction (columns d); constructor; auto.
  apply column_kept_refl.
Qed.

Lemma Forall2_trans_kept (l1 l2 l3 : list (string * column)) :
  Forall2 column_kept l1 l2 -> Forall2 column_kept l2 l3 ->
  Forall2 column_kept l1 l3.
Proof.
  intros F. revert l3. induction F as [| a b t u Hab _ IH]; intros l3 G.
  - inversion G. constructor.
  - inversion G as [| ? c ? w Hbc G']; subst. constructor; auto.
    eapply column_kept_trans; eauto.
Qed.

Lemma only_fills_trans (d1 d2 d3 : DataFrame) :
  only_fills d1 d2 -> only_fills d2 d3 -> only_fills d1 d3.
Proof.
  intros (R1 & F1) (R2 & F2). split; [congruence |].
  eapply Forall2_trans_kept; eauto.
Qed.

(** Columns are looked up alike in a table and in one that only fills
    it. *)
Lemma Forall2_kept_assoc (l l' : list (string * column)) (k : string)
      (c : column) :
  Forall2 column_kept l l' ->
  assoc k l = Some c ->
  exists c', assoc k l' = Some c' /\ keeps_values c c'.
Proof.
  induction 1 as [| [k0 c0] [k0' c0'] t t' (N & K) _ IH]; simpl;
    [discriminate |].
  simpl in N, K. subst k0'. destruct (String.eqb k k0); auto.
  intros E. inversion E; subst. eauto.
Qed.

(** Assigning to the first column named [k] a column that keeps the
    values of the original. *)
Lemma assoc_set_kept (l l' : list (string * column)) (k : string)
      (c c' : column) :
  Forall2 column_kept l l' ->
  assoc k l = Some c ->
  keeps_values c c' ->
  Forall2 column_kept l (assoc_set k c' l').
Proof.
  induction 1 as [| [k0 c0] [k0' c0'] t t' (N & K) F IH]; simpl;
    [discriminate |].
  simpl in N, K. subst k0'. intros E Kc.
  destruct (String.eqb k k0) eqn:Ek.
  - apply String.eqb_eq in Ek. subst k0. inversion E; subst c0.
    constructor; auto. split; auto.
  - constructor; [split; auto |]. now apply IH.
Qed.

Lemma setitem_only_fills (d0 d : DataFrame) (k : string) (c c' : column) :
  only_fills d0 d ->
  column_of d0 k = Some c ->
  keeps_values c c' ->
  only_fills d0 (setitem d k c').
Proof.
  intros (R & F) E K. split; [exact R |].
  unfold setitem; simpl. eapply assoc_set_kept; eauto.
Qed.

Lemma only_fills_column (d d' : DataFrame) (col : string) (c : column) :
  only_fills d d' ->
  column_of d col = Some c ->
  exists c', column_of d' col = Some c' /\ keeps_values c c'.
Proof. intros (_ & F). now apply Forall2_kept_assoc. Qed.



(** *** The filling loops *)

Lemma fill_median_step_only_fills (profile : Profile) (d d' : DataFrame)
      (k : string) :
  fill_median_step profile d k = Ok d' -> only_fills d d'.
Proof.
  unfold fill_median_step. destruct (in_missing k profile).
  2:{ intros E. inversion E. apply only_fills_refl. }
  intros E. apply bind_Ok in E. destruct E as (c & Hc & E).
  apply bind_Ok in E. destruct E as (xs & Hxs & E).
  inversion E; subst d'. apply getitem_Ok in Hc.
  apply setitem_only_fills with (c := c); auto using only_fills_refl.
  destruct c; simpl in *; inversion Hxs; subst;
    apply fillna_cells_kept.
Qed.

Lemma fill_mode_keeps_values (c c' : column) :
  fill_mode c = Some c' -> keeps_values c c'.
Proof.
  unfold fill_mode. destruct c as [xs | xs | xs].
  - destruct (mode_first Qeq_bool Qle_bool xs) as [a |];
      intros E; inversion E.
    exact (fillna_cells_kept xs (Some a)).
  - destruct (mode_first Qeq_bool Qle_bool xs) as [a |];
      intros E; inversion E.
    exact (fillna_cells_kept xs (Some a)).
  - destruct (mode_first String.eqb String.leb xs) as [a |];
      intros E; inversion E.
    exact (fillna_cells_kept xs (Some a)).
Qed.

Lemma fill_mode_step_only_fills (profile : Profile) (d d' : DataFrame)
      (k : string) :
  fill_mode_step profile d k = Ok d' -> only_fills d d'.
Proof.
  unfold fill_mode_step. destruct (in_missing k profile).
  2:{ intros E. inversion E. apply only_fills_refl. }
  intros E. apply bind_Ok in E. destruct E as (c & Hc & E).
  apply getitem_Ok in Hc. destruct (fill_mode c) as [c' |] eqn:F.
  - inversion E; subst d'.
    apply setitem_only_fills with (c := c); auto using only_fills_refl.
    now apply fill_mode_keeps_values.
  - inversion E. apply only_fills_refl.
Qed.

Lemma foldM_only_fills (step : DataFrame -> string -> result DataFrame)
      (cols : list string) (d d' : DataFrame) :
  (forall a k b, step a k = Ok b -> only_fills a b) ->
  foldM step cols d = Ok d' -> only_fills d d'.
Proof.
  intros Hstep. revert d. induction cols as [| k t IH]; simpl; intros d E.
  - inversion E. apply only_fills_refl.
  - apply bind_Ok in E. destruct E as (d1 & H1 & E).
    eapply only_fills_trans; eauto.
Qed.

Lemma _simple_impute_only_fills (df d' : DataFrame) (profile : Profile) :
  _simple_impute df profile = Ok d' -> only_fills df d'.
Proof.
  unfold _simple_impute. intros E.
  apply bind_Ok in E. destruct E as (d1 & H1 & E).
  eapply only_fills_trans.
  - eapply foldM_only_fills; [| exact H1].
    intros a k b. apply fill_median_step_only_fills.
  - eapply foldM_only_fills; [| exact E].
    intros a k b. apply fill_mode_step_only_fills.
Qed.

(** *** The k-NN phase *)









(* ================================================================== *)
(** ** The simple path and the threshold *)

Lemma in_missing_false (profile : Profile) (th : Q) (col : string) :
  ~ eligible profile th col ->
  in_missing col (with_missing profile (cols_to_impute profile th)) = false.
Proof.
  intros N. unfold in_missing. simpl.
  destruct (mem col (map fst (cols_to_impute profile th))) eqn:M; auto.
  apply mem_In in M. contradiction.
Qed.

Section Untouched.
Variable profile : Profile.
Variable col : string.
Hypothesis not_missing : in_missing col profile = false.

Lemma fill_median_step_untouched (d : DataFrame) (k : string)
      (d' : DataFrame) :
  fill_median_step profile d k = Ok d' ->
  column_of d' col = column_of d col.
Proof.
  unfold fill_median_step. destruct (in_missing k profile) eqn:M.
  2:{ intros E. now inversion E. }
  intros E. apply bind_Ok in E. destruct E as (c & _ & E).
  apply bind_Ok in E. destruct E as (xs & _ & E). inversion E.
  apply column_of_setitem_other. intros ->. congruence.
Qed.

Lemma fill_mode_step_untouched (d : DataFrame) (k : string)
      (d' : DataFrame) :
  fill_mode_step profile d k = Ok d' ->
  column_of d' col = column_of d col.
Proof.
  unfold fill_mode_step. destruct (in_missing k profile) eqn:M.
  2:{ intros E. now inversion E. }
  intros E. apply bind_Ok in E. destruct E as (c & _ & E).
  destruct (fill_mode c); inversion E; auto.
  apply column_of_setitem_other. intros ->. congruence.
Qed.

Lemma foldM_untouched (step : DataFrame -> string -> result DataFrame)
      (cols : list string) (d d' : DataFrame) :
  (forall a k b, step a k = Ok b -> column_of b col = column_of a col) ->
  foldM step cols d = Ok d' -> column_of d' col = column_of d col.
Proof.
  intros Hstep. revert d. induction cols as [| k t IH]; simpl; intros d E.
  - now inversion E.
  - apply bind_Ok in E. destruct E as (d1 & H1 & E).
    rewrite (IH _ E). eauto.
Qed.

Lemma _simple_impute_untouched (df d' : DataFrame) :
  _simple_impute df profile = Ok d' -> column_of d' col = column_of df col.
Proof.
  unfold _simple_impute. intros E.
  apply bind_Ok in E. destruct E as (d1 & H1 & E).
  rewrite (@foldM_untouched _ _ _ _ fill_mode_step_untouched E).
  exact (@foldM_untouched _ _ _ _ fill_median_step_untouched H1).
Qed.

End Untouched.

(** With method simple, a column that is not eligible, because it is over
    the threshold or not in the missing map at all, comes back exactly
    as it was, missing cells included. *)
Theorem simple_leaves_ineligible_columns_untouched :
  forall (df : DataFrame) (profile : Profile) (th : Q)
         (df' : DataFrame) (r : CleaningResult) (col : string),
    impute_missing df profile "simple" th = Ok (df', r) ->
    ~ eligible profile th col ->
    column_of df' col = column_of df col.
Proof.
  intros df profile th df' r col E N.
  destruct (cols_to_impute profile th) eqn:EC.
  - rewrite impute_missing_nothing_eligible in E by assumption.
    now inversion E.
  - assert (NE : cols_to_impute profile th <> []) by congruence.
    rewrite impute_missing_dispatch in E by assumption. cbv zeta in E.
    change (String.eqb "simple" "auto") with false in E.
    cbv beta iota in E.
    change (String.eqb "simple" "simple") with true in E.
    cbv beta iota in E.
    apply bind_Ok in E. destruct E as (d & Hd & E).
    inversion E; subst df' r.
    exact (@_simple_impute_untouched _ _ (@in_missing_false _ _ _ N) _ _ Hd).
Qed.

Lemma simple_leaves_ineligible_columns_untouched_witness :
  exists df' r,
    impute_missing sparse_pair sparse_pair_profile "simple" 30
    = Ok (df', r)
    /\ column_of df' "a"
       = Some (NumCol [Some 1%Q; None; None; Some 4%Q; Some 5%Q]).
Proof.
  destruct (impute_missing sparse_pair sparse_pair_profile "simple" 30)
    as [[df' r] | e] eqn:E.
  2:{ exfalso. vm_compute in E. discriminate E. }
  exists df', r. split; [reflexivity |].
  rewrite (@simple_leaves_ineligible_columns_untouched
             sparse_pair sparse_pair_profile 30 df' r "a" E).
  - reflexivity.
  - vm_compute. intros [H | H]; [discriminate H | exact H].
Defined.



(* ================================================================== *)
(** ** The k-NN path on numeric columns *)

Lemma knn_dispatch (df : DataFrame) (profile : Profile) (method : string)
      (th : Q) :
  method = "knn" \/ method = "random_forest" ->
  cols_to_impute profile th <> [] ->
  impute_missing df profile method th
  = df' <- _knn_impute df (with_missing profile (cols_to_impute profile th)) ;;
    Ok (df', {| imputed_columns := map fst (cols_to_impute profile th);
                skipped_columns := map fst (skipped profile th);
                method_used := method |}).
Proof.
  intros Hm N. rewrite impute_missing_dispatch by assumption. cbv zeta.
  destruct Hm as [-> | ->]; reflexivity.
Qed.

Lemma all_missing_invalid (xs : list (option Q)) :
  all_missing (NumCol xs) -> KNNImputer.valid xs = false.
Proof.
  unfold all_missing, KNNImputer.valid. simpl.
  induction xs as [| [x |] t IH]; simpl; auto.
Qed.

Lemma filter_shorter {A : Type} (p : A -> bool) (l : list A) (x : A) :
  In x l -> p x = false -> length (filter p l) < length l.
Proof.
  induction l as [| y t IH]; simpl; [intros [] |].
  intros [-> | I] Px.
  - rewrite Px. pose proof (filter_length_le p t). lia.
  - specialize (IH I Px). destruct (p y); simpl; lia.
Qed.

Lemma selected_cells (df : DataFrame) (cols : list string)
      (X : list (list (option Q))) (col : string) (xs : list (option Q)) :
  Forall2 (fun k x => column_of df k = Some (NumCol x)) cols X ->
  In col cols ->
  column_of df col = Some (NumCol xs) ->
  In xs X.
Proof.
  induction 1 as [| k x t u Hk _ IH]; simpl; [intros [] |].
  intros [-> | I] Hc.
  - left. congruence.
  - right. auto.
Qed.

(** When the profile lists as numeric a column with no value at all, the
    k-NN path cannot run on a table that has rows: the imputer drops
    that column from its output and the assignment back into the table
    raises.  This holds whether the empty column is eligible or not. *)
Theorem knn_raises_on_a_numeric_column_without_values :
  forall (df : DataFrame) (profile : Profile) (method : string) (th : Q)
         (col : string) (xs : list (option Q)),
    method = "knn" \/ method = "random_forest" ->
    0 < nrows df ->
    cols_to_impute profile th <> [] ->
    Forall (numeric_in df) (numeric_cols profile) ->
    In col (numeric_cols profile) ->
    column_of df col = Some (NumCol xs) ->
    all_missing (NumCol xs) ->
    impute_missing df profile method th
    = Raise (ValueError "Columns must be same length as key").
Proof.
  intros df profile method th col xs Hm _ N F I Hc A.
  rewrite knn_dispatch by assumption. unfold _knn_impute.
  cbn [numeric_cols with_missing].
  destruct (numeric_cols profile) as [| k t] eqn:EN; [destruct I |].
  rewrite <- EN in *.
  destruct (getitem_list_total F) as (sub & Hsub).
  destruct (to_float_total F Hsub) as (X & HX).
  rewrite Hsub. cbn [bind]. rewrite HX. cbn [bind].
  pose proof (selected_columns _ _ Hsub HX) as S.
  pose proof (@selected_cells _ _ _ _ _ S I Hc) as IX.
  pose proof (@filter_shorter _ KNNImputer.valid X xs IX
                (all_missing_invalid A)) as L.
  assert (LX : length X = length (numeric_cols profile)).
  { apply mapM_length in Hsub, HX. congruence. }
  unfold setitem_list, KNNImputer.fit_transform. rewrite length_map.
  destruct (length (filter KNNImputer.valid X)
            =? length (numeric_cols profile)) eqn:E.
  - apply Nat.eqb_eq in E. lia.
  - reflexivity.
Qed.

Lemma knn_raises_on_a_numeric_column_without_values_witness :
  profile_data hollow = Ok hollow_profile
  /\ impute_missing hollow hollow_profile "knn" 50
     = Raise (ValueError "Columns must be same length as key").
Proof.
  split; [vm_compute; reflexivity |].
  apply (@knn_raises_on_a_numeric_column_without_values
           hollow hollow_profile "knn" 50 "a" [None; None; None]).
  - now left.
  - simpl. lia.
  - vm_compute. discriminate.
  - repeat constructor; eexists; vm_compute; reflexivity.
  - simpl. now left.
  - vm_compute. reflexivity.
  - vm_compute. reflexivity.
Defined.

(** With method knn or random_forest, every numeric column of the
    profile comes back without a missing cell whenever the call returns
    and some column is eligible, be that numeric column eligible, over
    the threshold or absent from the missing map. *)
Theorem knn_completes_every_numeric_column :
  forall (df : DataFrame) (profile : Profile) (method : string) (th : Q)
         (df' : DataFrame) (r : CleaningResult) (col : string),
    method = "knn" \/ method = "random_forest" ->
    cols_to_impute profile th <> [] ->
    impute_missing df profile method th = Ok (df', r) ->
    In col (numeric_cols profile) ->
    complete_in df' col.
Proof.
  intros df profile method th df' r col Hm N E I.
  rewrite knn_dispatch in E by assumption.
  apply bind_Ok in E. destruct E as (d & Hd & E). inversion E; subst df' r.
  clear E. unfold _knn_impute in Hd. cbn [numeric_cols with_missing] in Hd.
  apply bind_Ok in Hd. destruct Hd as (d1 & H1 & Hd).
  destruct (@foldM_fills (with_missing profile (cols_to_impute profile th))
              col _ _ _ _
              (fill_mode_step_fills
                 (with_missing profile (cols_to_impute profile th)) col) Hd)
    as (Keep & _ & _).
  apply Keep.
  destruct (numeric_cols profile) as [| k t] eqn:EN; [destruct I |].
  rewrite <- EN in *.
  apply bind_Ok in H1. destruct H1 as (sub & _ & H1).
  apply bind_Ok in H1. destruct H1 as (X & _ & H1).
  destruct (proj1 (setitem_list_spec col _ _ _ H1) I) as (y & Hy & Ey).
  exists (NumCol y). split; auto. now apply fit_transform_full in Hy.
Qed.

Lemma knn_completes_every_numeric_column_witness :
  exists df' r,
    impute_missing sparse_pair sparse_pair_profile "knn" 30 = Ok (df', r)
    /\ complete_in df' "a" /\ complete_in df' "b".
Proof.
  destruct (impute_missing sparse_pair sparse_pair_profile "knn" 30)
    as [[df' r] | e] eqn:E.
  2:{ exfalso. vm_compute in E. discriminate E. }
  assert (N : cols_to_impute sparse_pair_profile 30 <> [])
    by (vm_compute; discriminate).
  exists df', r. split; [reflexivity |]. split.
  - apply (@knn_completes_every_numeric_column sparse_pair
             sparse_pair_profile "knn" 30 df' r "a"
             (or_introl eq_refl) N E).
    simpl. now left.
  - apply (@knn_completes_every_numeric_column sparse_pair
             sparse_pair_profile "knn" 30 df' r "b"
             (or_introl eq_refl) N E).
    simpl. right. now left.
Defined.

(* ================================================================== *)
(** ** More on outlier detection *)

Lemma flagged_In (index : list nat) (labels : list Z) (i : nat) :
  In i (flagged index labels) -> In i index.
Proof.
  unfold flagged. intros I. apply in_map_iff in I.
  destruct I as ([j z] & <- & I). apply filter_In in I.
  destruct I as (I & _). now apply in_combine_l in I.
Qed.

Lemma flagged_NoDup (index : list nat) (labels : list Z) :
  NoDup index -> NoDup (flagged index labels).
Proof.
  intros ND. revert labels. induction ND as [| i t Hi _ IH]; intros labels.
  - constructor.
  - destruct labels as [| z zs]; [constructor |].
    unfold flagged in *. simpl. destruct (Z.eqb z (-1)); simpl; auto.
    constructor; auto. intros I. apply Hi.
    exact (@flagged_In t zs i I).
Qed.

Lemma mapM_In {A B : Type} (f : A -> result B) (l : list A) (l' : list B)
      (x : A) :
  mapM f l = Ok l' -> In x l -> exists y, f x = Ok y /\ In y l'.
Proof.
  revert l'. induction l as [| a t IH]; simpl; intros l' E; [intros [] |].
  apply bind_Ok in E. destruct E as (y & Hy & E).
  apply bind_Ok in E. destruct E as (ys & Hys & E).
  inversion E; subst l'. intros [-> | I].
  - exists y. split; auto. now left.
  - destruct (IH _ Hys I) as (y' & Hy' & I'). exists y'. split; auto.
    now right.
Qed.

(** What the two scoring paths return, whatever the scores. *)
Lemma score_outliers_spec (fit_predict : list (list Q) -> list Z)
      (df : DataFrame) (numeric_cols : list string) (l : list nat) :
  score_outliers fit_predict df numeric_cols = Ok l ->
  StronglySorted lt l
  /\ forall i, In i l ->
       i < nrows df
       /\ forall col, In col numeric_cols ->
            exists c, column_of df col = Some c
                      /\ nth i (col_isnull c) true = false.
Proof.
  unfold score_outliers, dropna_rows. intros E.
  apply bind_Ok in E. destruct E as ([sub index] & HX & E).
  apply bind_Ok in HX. destruct HX as (sub' & Hsub & HX).
  inversion HX; subst sub' index. clear HX.
  match type of E with
  | context [length ?ix <? 10] => set (index := ix) in *
  end.
  destruct (length index <? 10).
  - inversion E. split; [constructor | intros i []].
  - apply bind_Ok in E. destruct E as (values & _ & E).
    inversion E; subst l. clear E.
    assert (ND : NoDup index) by (apply NoDup_filter; apply seq_NoDup).
    split.
    + apply sorted_ascending. now apply flagged_NoDup.
    + intros i I. apply (proj1 (sorted_In _ _)) in I.
      apply flagged_In in I.
      apply filter_In in I. destruct I as (Ir & Hall).
      apply in_seq in Ir. split; [lia |].
      intros col Ic. destruct (@mapM_In _ _ _ _ _ col Hsub Ic) as (c & Hc & Is).
      exists c. split; [now apply getitem_Ok |].
      rewrite forallb_forall in Hall. specialize (Hall c Is).
      now apply negb_true_iff in Hall.
Qed.

(** With method auto the detector is chosen by the number of numeric
    columns of the profile: fewer than 5 give the interquartile rule,
    5 to 9 the local outlier factor, 10 or more the isolation forest.
    The call is then the call with that method, result or error
    alike. *)
Theorem auto_detection_follows_the_number_of_numeric_columns :
  forall `{External} (df : DataFrame) (profile : Profile),
    (length (numeric_cols profile) < 5 ->
     detect_outliers df profile "auto" = detect_outliers df profile "iqr")
    /\ (5 <= length (numeric_cols profile) < 10 ->
        detect_outliers df profile "auto"
        = detect_outliers df profile "knn")
    /\ (10 <= length (numeric_cols profile) ->
        detect_outliers df profile "auto"
        = detect_outliers df profile "isolation_forest").
Proof.
  intros E df profile. unfold detect_outliers.
  destruct (numeric_cols profile) as [| c t] eqn:EN;
    [repeat split; reflexivity |].
  change (String.eqb "auto" "auto") with true.
  change (String.eqb "iqr" "auto") with false.
  change (String.eqb "knn" "auto") with false.
  change (String.eqb "isolation_forest" "auto") with false.
  cbv beta iota zeta.
  split; [| split]; intros Hn.
  - apply Nat.ltb_lt in Hn. rewrite Hn. reflexivity.
  - destruct Hn as (H5 & H10). apply Nat.ltb_ge in H5.
    apply Nat.ltb_lt in H10. rewrite H5, H10. reflexivity.
  - assert (H5 : (length (c :: t) <? 5) = false) by (apply Nat.ltb_ge; lia).
    apply Nat.ltb_ge in Hn. rewrite H5, Hn. reflexivity.
Qed.

(** A returned detection result is consistent: [outlier_count] is the
    number of indices, the indices are strictly ascending (sorted,
    without duplicate), and the method it names is never ['auto']: it
    is ['none'] exactly when the profile lists no numeric column, and
    otherwise the method that ran. *)
Theorem detection_result_is_consistent :
  forall `{External} (df : DataFrame) (profile : Profile) (method : string)
         (r : OutlierResult),
    detect_outliers df profile method = Ok r ->
    outlier_count r = length (outlier_indices r)
    /\ StronglySorted lt (outlier_indices r)
    /\ In (outlier_method_used r) ["none"; "iqr"; "knn"; "isolation_forest"]
    /\ (outlier_method_used r = "none" <-> numeric_cols profile = [])
    /\ (method <> "auto" -> numeric_cols profile <> [] ->
        outlier_method_used r = method).
Proof.
  intros E df profile method r. unfold detect_outliers.
  destruct (numeric_cols profile) as [| c t] eqn:EN.
  - intros Hr. inversion Hr; subst r; simpl.
    repeat split; auto; try constructor. congruence.
  - rewrite <- EN. cbv zeta.
    set (m := if String.eqb method "auto"
              then if length (numeric_cols profile) <? 5 then "iqr"
                   else if length (numeric_cols profile) <? 10 then "knn"
                        else "isolation_forest"
              else method).
    intros Hr. apply bind_Ok in Hr. destruct Hr as (l & Hl & Hr).
    inversion Hr; subst r; simpl. clear Hr.
    assert (K : (m = "iqr" /\ _iqr_outliers df (numeric_cols profile) = Ok l)
                \/ (m = "knn"
                    /\ _knn_outliers df (numeric_cols profile) = Ok l)
                \/ (m = "isolation_forest"
                    /\ _isolation_forest_outliers df (numeric_cols profile)
                       = Ok l)).
    { destruct (String.eqb m "iqr") eqn:E1;
        [apply String.eqb_eq in E1; auto |].
      destruct (String.eqb m "knn") eqn:E2;
        [apply String.eqb_eq in E2; auto |].
      destruct (String.eqb m "isolation_forest") eqn:E3;
        [apply String.eqb_eq in E3; auto | discriminate]. }
    split; [reflexivity |]. split; [| split; [| split]].
    + destruct K as [(_ & K) | [(_ & K) | (_ & K)]].
      * unfold _iqr_outliers in K. apply bind_Ok in K.
        destruct K as (S & HS & K). inversion K.
        apply sorted_ascending.
        apply (proj1 (iqr_loop_spec _ _ _ HS)). constructor.
      * exact (proj1 (score_outliers_spec _ _ _ K)).
      * exact (proj1 (score_outliers_spec _ _ _ K)).
    + destruct K as [(-> & _) | [(-> & _) | (-> & _)]]; simpl; auto.
    + split; [| rewrite EN; discriminate].
      intros En. destruct K as [(K & _) | [(K & _) | (K & _)]];
        rewrite K in En; discriminate.
    + intros Na _. subst m. now rewrite (eqb_neq_false Na).
Qed.

Lemma detection_result_is_consistent_witness :
  exists r,
    @detect_outliers trivial_external decimals decimals_profile "auto" = Ok r
    /\ outlier_count r = 1
    /\ outlier_method_used r = "iqr".
Proof.
  destruct (@detect_outliers trivial_external decimals decimals_profile
              "auto") as [r | e] eqn:E.
  2:{ exfalso. vm_compute in E. discriminate E. }
  exists r. split; [reflexivity |].
  destruct (@detection_result_is_consistent trivial_external decimals
              decimals_profile "auto" r E) as (C & _).
  rewrite C. split.
  - assert (L : match @detect_outliers trivial_external decimals
                        decimals_profile "auto" with
                | Ok r => length (outlier_indices r) = 1
                          /\ outlier_method_used r = "iqr"
                | Raise _ => False
                end) by (vm_compute; auto).
    rewrite E in L. exact (proj1 L).
  - assert (L : match @detect_outliers trivial_external decimals
                        decimals_profile "auto" with
                | Ok r => length (outlier_indices r) = 1
                          /\ outlier_method_used r = "iqr"
                | Raise _ => False
                end) by (vm_compute; auto).
    rewrite E in L. exact (proj2 L).
Defined.

(** With method knn or isolation_forest, a flagged row is a row of the
    table that has a value in every numeric column of the profile: the
    rows with a missing numeric value are dropped before scoring and
    are never reported, whatever the scores. *)
Theorem scored_outliers_are_complete_rows :
  forall `{External} (df : DataFrame) (profile : Profile) (method : string)
         (r : OutlierResult) (i : nat),
    method = "knn" \/ method = "isolation_forest" ->
    detect_outliers df profile method = Ok r ->
    In i (outlier_indices r) ->
    i < nrows df /\ complete_row df profile i.
Proof.
  intros E df profile method r i Hm. unfold detect_outliers.
  destruct (numeric_cols profile) as [| c t] eqn:EN.
  - intros Hr. inversion Hr; subst r. intros [].
  - rewrite <- EN. cbv zeta. intros Hr.
    apply bind_Ok in Hr. destruct Hr as (l & Hl & Hr).
    inversion Hr; subst r; simpl. clear Hr. intros I.
    assert (K : exists f, score_outliers f df (numeric_cols profile) = Ok l).
    { destruct Hm as [-> | ->].
      - exists lof_fit_predict. exact Hl.
      - exists iso_fit_predict. exact Hl. }
    destruct K as (f & K).
    destruct (proj2 (score_outliers_spec _ _ _ K) i I) as (Hi & Hc).
    split; [exact Hi |]. intros col Ic. auto.
Qed.

Lemma scored_outliers_are_complete_rows_witness :
  @detect_outliers first_row_external dozen dozen_profile "knn"
  = Ok {| outlier_indices := [1];
          outlier_method_used := "knn";
          outlier_count := 1 |}
  /\ 1 < nrows dozen /\ complete_row dozen dozen_profile 1.
Proof.
  assert (E : @detect_outliers first_row_external dozen dozen_profile "knn"
              = Ok {| outlier_indices := [1];
                      outlier_method_used := "knn";
                      outlier_count := 1 |})
    by (vm_compute; reflexivity).
  split; [exact E |].
  apply (@scored_outliers_are_complete_rows first_row_external dozen
           dozen_profile "knn" _ 1 (or_introl eq_refl) E).
  simpl. now left.
Defined.

(* ================================================================== *)
(** ** The profile of a table *)

Lemma assoc_set_keys {A : Type} (k : string) (v : A) (l : list (string * A))
      (x : string) :
  In x (map fst (assoc_set k v l)) <-> x = k \/ In x (map fst l).
Proof.
  induction l as [| [k' v'] t IH]; simpl.
  - intuition.
  - destruct (String.eqb k k') eqn:E; simpl.
    + apply String.eqb_eq in E. subst k'. intuition.
    + rewrite IH. intuition.
Qed.

Lemma assoc_set_In {A : Type} (k : string) (v : A) (l : list (string * A))
      (x : string) (w : A) :
  In (x, w) (assoc_set k v l) -> (x = k /\ w = v) \/ In (x, w) l.
Proof.
  induction l as [| [k' v'] t IH]; simpl.
  - intros [E | []]. inversion E. auto.
  - destruct (String.eqb k k') eqn:E; simpl.
    + intros [H | H]; [inversion H; auto | auto].
    + intros [H | H]; [auto |]. destruct (IH H); auto.
Qed.

Lemma NoDup_assoc {A : Type} (l : list (string * A)) (k : string) (v : A) :
  NoDup (map fst l) -> In (k, v) l -> assoc k l = Some v.
Proof.
  induction l as [| [k' v'] t IH]; simpl; intros ND I; [destruct I |].
  inversion ND as [| ? ? Hk NDt]; subst.
  destruct I as [E | I].
  - inversion E; subst. now rewrite String.eqb_refl.
  - destruct (String.eqb k k') eqn:E; [| auto].
    apply String.eqb_eq in E. subst k'. exfalso. apply Hk.
    apply in_map_iff. now exists (k, v).
Qed.

(** The loop that builds the missing map, from any starting map. *)
Lemma missing_loop_spec (rows : nat) (cols : list (string * column))
      (acc : list (string * Q)) :
  let step := fun (missing : list (string * Q)) (nc : string * column) =>
                if 0 <? missing_count (snd nc)
                then assoc_set (fst nc)
                       (np_round (fmul (fdiv (Qof_nat (missing_count (snd nc)))
                                             (Qof_nat rows)) 100) 1)
                       missing
                else missing in
  (forall x,
      In x (map fst (fold_left step cols acc))
      <-> In x (map fst acc)
          \/ exists c, In (x, c) cols /\ 0 < missing_count c)
  /\ (forall x w,
         In (x, w) (fold_left step cols acc) ->
         In (x, w) acc
         \/ exists c, In (x, c) cols /\ 0 < missing_count c
                      /\ w = np_round
                               (fmul (fdiv (Qof_nat (missing_count c))
                                           (Qof_nat rows)) 100) 1).
Proof.
  cbv zeta. revert acc. induction cols as [| [k c] t IH]; intros acc; simpl.
  - split.
    + intros x. split; [auto |]. intros [I | (c & [] & _)]. exact I.
    + intros x w I. now left.
  - destruct (IH (if 0 <? missing_count c
                  then assoc_set k
                         (np_round (fmul (fdiv (Qof_nat (missing_count c))
                                               (Qof_nat rows)) 100) 1)
                         acc
                  else acc)) as (K & V).
    destruct (0 <? missing_count c) eqn:M.
    + apply Nat.ltb_lt in M. split.
      * intros x. rewrite K, assoc_set_keys. split.
        -- intros [[-> | I] | (c' & I & P)].
           ++ right. exists c. split; [now left | exact M].
           ++ left. exact I.
           ++ right. exists c'. split; [now right | exact P].
        -- intros [I | (c' & [E | I] & P)].
           ++ left. right. exact I.
           ++ inversion E; subst. left. now left.
           ++ right. exists c'. split; assumption.
      * intros x w I. destruct (V x w I) as [I' | (c' & I' & P)].
        -- apply assoc_set_In in I'. destruct I' as [(-> & ->) | I'].
           ++ right. exists c. split; [now left | split; [exact M |]].
              reflexivity.
           ++ left. exact I'.
        -- right. exists c'. split; [now right | exact P].
    + apply Nat.ltb_ge in M. split.
      * intros x. rewrite K. split.
        -- intros [I | (c' & I & P)].
           ++ left. exact I.
           ++ right. exists c'. split; [now right | exact P].
        -- intros [I | (c' & [E | I] & P)].
           ++ left. exact I.
           ++ inversion E; subst. lia.
           ++ right. exists c'. split; assumption.
      * intros x w I. destruct (V x w I) as [I' | (c' & I' & P)].
        -- left. exact I'.
        -- right. exists c'. split; [now right | exact P].
Qed.

Lemma profile_data_fields (df : DataFrame) (p : Profile) :
  profile_data df = Ok p ->
  rows p = nrows df
  /\ cols p = length (columns df)
  /\ missing p = missing_of df
  /\ dimensionality p
     = if 10 <=? length (numeric_cols p) then "high" else "low".
Proof.
  unfold profile_data. intros E. injection E as <-.
  repeat split; reflexivity.
Qed.

(** The profile records the shape of the table, lists in its missing
    map exactly the columns that have a missing cell, each with the
    percentage of its missing cells rounded to one decimal, and calls
    the table high-dimensional exactly when it has 10 numeric columns
    or more. *)
Theorem profile_records_the_missing_cells :
  forall (df : DataFrame) (p : Profile),
    profile_data df = Ok p ->
    rows p = nrows df
    /\ cols p = length (columns df)
    /\ (forall col,
           In col (map fst (missing p))
           <-> exists c, In (col, c) (columns df) /\ 0 < missing_count c)
    /\ (forall col pct,
           In (col, pct) (missing p) ->
           exists c, In (col, c) (columns df) /\ 0 < missing_count c
                     /\ pct = missing_pct df c)
    /\ (dimensionality p = "high" <-> 10 <= length (numeric_cols p))
    /\ (dimensionality p = "low" <-> length (numeric_cols p) < 10).
Proof.
  intros df p E.
  destruct (profile_data_fields E) as (Hr & Hc & Hm & Hd).
  destruct (missing_loop_spec (nrows df) (columns df) []) as (K & V).
  cbv zeta in K, V. split; [exact Hr |]. split; [exact Hc |].
  rewrite Hm, Hd. split; [| split; [| split]].
  - intros col. unfold missing_of. rewrite K. simpl. tauto.
  - intros col pct I. unfold missing_of in I.
    destruct (V col pct I) as [[] | R]. exact R.
  - destruct (10 <=? length (numeric_cols p)) eqn:D.
    + apply Nat.leb_le in D. split; auto.
    + apply Nat.leb_gt in D. split; [discriminate | lia].
  - destruct (10 <=? length (numeric_cols p)) eqn:D.
    + apply Nat.leb_le in D. split; [discriminate | lia].
    + apply Nat.leb_gt in D. split; auto.
Qed.

Lemma profile_records_the_missing_cells_witness :
  In "b" (map fst (missing sparse_pair_profile))
  /\ missing_pct sparse_pair
       (NumCol [Some 1%Q; Some 2%Q; None; Some 4%Q; Some 5%Q]) = 20%Q.
Proof.
  assert (E : profile_data sparse_pair = Ok sparse_pair_profile)
    by (vm_compute; reflexivity).
  destruct (@profile_records_the_missing_cells sparse_pair
              sparse_pair_profile E) as (_ & _ & K & _).
  split; [| vm_compute; reflexivity].
  apply (proj2 (K "b")).
  exists (NumCol [Some 1%Q; Some 2%Q; None; Some 4%Q; Some 5%Q]).
  split; [simpl; right; now left | vm_compute; lia].
Defined.

(* ================================================================== *)
(** ** The basic pipeline *)

Lemma select_dtypes_In (df : DataFrame) (p : column -> bool) (col : string) :
  In col (select_dtypes df p)
  -> exists c, In (col, c) (columns df) /\ p c = true.
Proof.
  unfold select_dtypes. intros I. apply in_map_iff in I.
  destruct I as ([k c] & <- & I). apply filter_In in I. simpl in *.
  exists c. exact I.
Qed.

(** The profile of a table with distinct column names fits the table. *)
Lemma profile_data_fits (df : DataFrame) (p : Profile) :
  NoDup (map fst (columns df)) ->
  profile_data df = Ok p ->
  profile_fits df p.
Proof.
  intros ND E. unfold profile_data in E. inversion E; subst p.
  unfold profile_fits. simpl. split; apply Forall_forall; intros col I;
    apply select_dtypes_In in I; destruct I as (c & I & P);
    unfold numeric_in, column_of; rewrite (NoDup_assoc _ _ _ ND I).
  - destruct c; try discriminate. eauto.
  - discriminate.
Qed.

Lemma only_fills_numeric_in (d d' : DataFrame) (col : string) :
  only_fills d d' -> numeric_in d col -> numeric_in d' col.
Proof.
  intros O (xs & Hc).
  destruct (only_fills_column _ O Hc) as (c' & Hc' & K).
  destruct c' as [ys | ys | ys]; simpl in K; try contradiction.
  now exists ys.
Qed.

Lemma only_fills_present (d d' : DataFrame) (col : string) :
  only_fills d d' -> column_of d col <> None -> column_of d' col <> None.
Proof.
  intros O N. destruct (column_of d col) as [c |] eqn:Hc; [| congruence].
  destruct (only_fills_column _ O Hc) as (c' & Hc' & _). congruence.
Qed.

Lemma only_fills_fits (d d' : DataFrame) (profile : Profile) :
  only_fills d d' -> profile_fits d profile -> profile_fits d' profile.
Proof.
  intros O (Fn & Fc). split.
  - apply Forall_impl with (2 := Fn). intros col.
    now apply only_fills_numeric_in.
  - apply Forall_impl with (2 := Fc). intros col.
    now apply only_fills_present.
Qed.

Lemma median_loop_total (profile : Profile) (cols : list string)
      (d : DataFrame) :
  Forall (numeric_in d) cols ->
  exists d', foldM (fill_median_step profile) cols d = Ok d'.
Proof.
  revert d. induction cols as [| k t IH]; intros d F; simpl; [eauto |].
  inversion F as [| ? ? (xs & Hk) Ft]; subst.
  assert (S : exists d1, fill_median_step profile d k = Ok d1).
  { unfold fill_median_step. destruct (in_missing k profile); [| eauto].
    apply getitem_Ok in Hk. rewrite Hk. simpl. eauto. }
  destruct S as (d1 & H1). rewrite H1. cbn [bind]. apply IH.
  apply Forall_impl with (2 := Ft). intros col.
  apply only_fills_numeric_in.
  exact (fill_median_step_only_fills _ _ _ H1).
Qed.

Lemma mode_loop_total (profile : Profile) (cols : list string)
      (d : DataFrame) :
  Forall (fun col => column_of d col <> None) cols ->
  exists d', foldM (fill_mode_step profile) cols d = Ok d'.
Proof.
  revert d. induction cols as [| k t IH]; intros d F; simpl; [eauto |].
  inversion F as [| ? ? Hk Ft]; subst.
  assert (S : exists d1, fill_mode_step profile d k = Ok d1).
  { unfold fill_mode_step. destruct (in_missing k profile); [| eauto].
    unfold getitem. unfold column_of in Hk.
    destruct (assoc k (columns d)); [| congruence]. simpl.
    destruct (fill_mode c); eauto. }
  destruct S as (d1 & H1). rewrite H1. cbn [bind]. apply IH.
  apply Forall_impl with (2 := Ft). intros col.
  apply only_fills_present.
  exact (fill_mode_step_only_fills _ _ _ H1).
Qed.

Lemma _simple_impute_total (df : DataFrame) (profile : Profile) :
  profile_fits df profile -> exists d', _simple_impute df profile = Ok d'.
Proof.
  intros (Fn & Fc). unfold _simple_impute.
  destruct (median_loop_total profile Fn) as (d1 & H1).
  rewrite H1. cbn [bind]. apply mode_loop_total.
  apply Forall_impl with (2 := Fc). intros col.
  apply only_fills_present.
  eapply foldM_only_fills; [| exact H1].
  intros a k b. apply fill_median_step_only_fills.
Qed.

(** The path of [analyze_file] without the ML option: the table is
    profiled, imputed with method simple on that profile, and the
    result analysed with the same profile.  On a table whose column
    names are distinct the three phases return, at any threshold: the
    profile fits the table, the imputation only fills cells, and the
    profile still fits the imputed table. *)
Theorem basic_pipeline_runs :
  forall `{External} (df : DataFrame) (th : Q),
    NoDup (map fst (columns df)) ->
    exists p df' r a,
      profile_data df = Ok p
      /\ profile_fits df p
      /\ impute_missing df p "simple" th = Ok (df', r)
      /\ only_fills df df'
      /\ analyze_data df' p = Ok a.
Proof.
  intros E df th ND.
  destruct (profile_data df) as [p | e] eqn:Hp; [| discriminate Hp].
  pose proof (profile_data_fits ND Hp) as Fit.
  assert (I : exists df' r,
             impute_missing df p "simple" th = Ok (df', r)
             /\ only_fills df df').
  { destruct (cols_to_impute p th) eqn:EC.
    - rewrite impute_missing_nothing_eligible by assumption.
      do 2 eexists. split; [reflexivity | apply only_fills_refl].
    - assert (NE : cols_to_impute p th <> []) by congruence.
      rewrite impute_missing_dispatch by assumption. cbv zeta.
      change (String.eqb "simple" "auto") with false. cbv beta iota.
      change (String.eqb "simple" "simple") with true. cbv beta iota.
      destruct (@_simple_impute_total df
                  (with_missing p (cols_to_impute p th)) Fit) as (d' & Hd).
      rewrite Hd. cbn [bind]. do 2 eexists. split; [reflexivity |].
      exact (_simple_impute_only_fills _ _ Hd). }
  destruct I as (df' & r & Hi & O).
  destruct (@analyze_data_total E df' p (only_fills_fits O Fit)) as (a & Ha).
  exists p, df', r, a. auto.
Qed.

Lemma basic_pipeline_runs_witness :
  exists df' r a,
    impute_missing people people_profile "simple" 30 = Ok (df', r)
    /\ only_fills people df'
    /\ @analyze_data trivial_external df' people_profile = Ok a.
Proof.
  destruct (@basic_pipeline_runs trivial_external people 30)
    as (p & df' & r & a & Hp & _ & Hi & O & Ha).
  { simpl. repeat constructor; simpl; intuition discriminate. }
  assert (Ep : profile_data people = Ok people_profile)
    by (vm_compute; reflexivity).
  rewrite Ep in Hp. inversion Hp; subst p.
  exists df', r, a. auto.
Defined.

(* ================================================================== *)
(** ** What the analysis reports on *)

Section Reports.
Context `{External}.

Lemma describe_loop_keys (df : DataFrame) (cols : list string)
      (acc st : list (string * Stats)) :
  foldM (describe_step df) cols acc = Ok st ->
  forall col, In col (map fst st) <-> In col (map fst acc) \/ In col cols.
Proof.
  revert acc. induction cols as [| k t IH]; simpl; intros acc E col.
  - inversion E. tauto.
  - apply bind_Ok in E. destruct E as (s1 & H1 & E).
    rewrite (IH _ E). unfold describe_step in H1.
    apply bind_Ok in H1. destruct H1 as (c & _ & H1).
    destruct c; inversion H1. rewrite assoc_set_keys.
    intuition (subst; auto).
Qed.

Lemma summary_loop_spec (df : DataFrame) (profile : Profile)
      (cols : list string) (acc cs : list (string * list (string * nat))) :
  foldM (summary_step df profile) cols acc = Ok cs ->
  (forall col,
      In col (map fst cs)
      <-> In col (map fst acc)
          \/ (In col cols /\ ~ In col (high_cardinality profile)))
  /\ (Forall (fun e => length (snd e) <= 10) acc ->
      Forall (fun e => length (snd e) <= 10) cs).
Proof.
  revert acc. induction cols as [| k t IH]; cbn [foldM]; intros acc E.
  - inversion E. split; [intros col; simpl; tauto | auto].
  - apply bind_Ok in E. destruct E as (s1 & H1 & E).
    destruct (IH _ E) as (K & L). unfold summary_step in H1.
    destruct (mem k (high_cardinality profile)) eqn:M; cbn [negb] in H1.
    + inversion H1; subst s1. apply mem_In in M. split; [| exact L].
      intros col. rewrite K. simpl. intuition (subst; auto). contradiction.
    + assert (Nk : ~ In k (high_cardinality profile)).
      { intros I. apply mem_In in I. congruence. }
      apply bind_Ok in H1. destruct H1 as (c & _ & H1).
      assert (Es : s1 = assoc_set k
                              (firstn 10 (value_counts (labels_of c))) acc)
        by congruence.
      clear H1. subst s1. split.
      * intros col. rewrite K, assoc_set_keys. simpl.
        intuition (subst; auto).
      * intros F. apply L. apply Forall_forall. intros [x w] I.
        apply assoc_set_In in I. destruct I as [(-> & ->) | I].
        -- apply firstn_le_length.
        -- rewrite Forall_forall in F. exact (F _ I).
Qed.

(** A returned analysis has statistics for exactly the numeric columns
    of the profile, and a frequency table for exactly the categorical
    columns that are not of high cardinality; no frequency table has
    more than 10 entries. *)
Theorem analysis_reports_on_the_profiled_columns :
  forall (df : DataFrame) (profile : Profile) (r : AnalysisResult),
    analyze_data df profile = Ok r ->
    (forall col,
        In col (map fst (statistics r)) <-> In col (numeric_cols profile))
    /\ (forall col,
           In col (map fst (categorical_summary r))
           <-> In col (categorical_cols profile)
               /\ ~ In col (high_cardinality profile))
    /\ (forall col counts,
           In (col, counts) (categorical_summary r) ->
           length counts <= 10).
Proof.
  intros df profile r Hr. unfold analyze_data in Hr.
  apply bind_Ok in Hr. destruct Hr as (st & Hst & Hr).
  apply bind_Ok in Hr. destruct Hr as (co & _ & Hr).
  apply bind_Ok in Hr. destruct Hr as (cs & Hcs & Hr).
  inversion Hr; subst r; simpl. clear Hr.
  destruct (summary_loop_spec _ _ _ _ Hcs) as (K & L).
  split; [| split].
  - intros col. rewrite (describe_loop_keys _ _ _ Hst). simpl. tauto.
  - intros col. rewrite K. simpl. tauto.
  - intros col counts I. specialize (L (Forall_nil _)).
    rewrite Forall_forall in L. exact (L _ I).
Qed.

End Reports.

Lemma analysis_reports_on_the_profiled_columns_witness :
  exists r,
    @analyze_data trivial_external people people_profile = Ok r
    /\ In "city" (map fst (categorical_summary r))
    /\ In "age" (map fst (statistics r)).
Proof.
  destruct (@analyze_data trivial_external people people_profile)
    as [r | e] eqn:E.
  2:{ exfalso. vm_compute in E. discriminate E. }
  exists r. split; [reflexivity |].
  destruct (@analysis_reports_on_the_profiled_columns trivial_external
              people people_profile r E) as (S & C & _).
  split.
  - apply (proj2 (C "city")). simpl. split; [now left | intros []].
  - apply (proj2 (S "age")). simpl. now left.
Defined.
